(** * examples/nmnist.py: augmentation pipeline, run name, train and test loops

    A shallow embedding of the script's own logic.  The collaborators it
    drives (the transforms of [spike_data_augmentation], the network, the
    loss, the optimiser, the data loader and the TensorBoard writer) are
    black boxes: transforms are constructors of an inductive type, the
    numeric collaborators are parameters of a section, the writer is the
    list of [add_scalar] calls it has received.

    Python semantics are those of Python 3: comparing [None] with a float
    raises [TypeError], reading an unbound name raises [NameError], [%] by
    zero raises [ZeroDivisionError], [/] is true division, a dict iterates
    in insertion order. *)

From Stdlib Require Import ZArith NArith List String Ascii Bool Lia.
From Stdlib Require Import QArith Qabs Qpower Floats DecimalString.
From Stdlib Require Import Permutation.
Import ListNotations.

#[local] Set Warnings "-inexact-float".
#[local] Open Scope string_scope.
#[local] Open Scope Z_scope.

(* ===================================================================== *)
(** ** Python runtime: exceptions, effects, [%f] formatting               *)
(* ===================================================================== *)

Module Py.

(** The exceptions the script can raise by itself. *)
Inductive exn : Set :=
| TypeError
| NameError
| ZeroDivisionError
| AttributeError.

(** A computation over a mutable store [S]: it ends normally with a value
    or by raising, and in both cases leaves a store behind (what was
    mutated or printed before the exception stays so). *)
Definition M (S A : Type) : Type := S -> (exn + A) * S.

Definition ret {S A} (a : A) : M S A := fun s => (inr a, s).

Definition bind {S A B} (m : M S A) (k : A -> M S B) : M S B :=
  fun s =>
    match m s with
    | (inr a, s') => k a s'
    | (inl e, s') => (inl e, s')
    end.

Definition raise {S A} (e : exn) : M S A := fun s => (inl e, s).
Definition get {S} : M S S := fun s => (inr s, s).
Definition modify {S} (f : S -> S) : M S unit := fun s => (inr tt, f s).

(** [x > c] for an attribute [x] that holds a float or [None]. *)
Definition gt {S} (x : option float) (c : float) : M S bool :=
  match x with
  | Some v => ret (PrimFloat.ltb c v)
  | None => raise TypeError
  end.

(** [a % b] on ints: the remainder has the sign of [b], as [Z.modulo]. *)
Definition rem {S} (a b : Z) : M S Z :=
  if b =? 0 then raise ZeroDivisionError else ret (a mod b).

(** *** [%.<prec>f] of a float

    CPython prints the decimal that is nearest to the exact binary value,
    ties to even, with [prec] digits after the point; [nan] and the
    infinities print as words. *)

Definition digit (d : N) : ascii := ascii_of_N (48 + d).

(** The [width] low decimal digits of [n], most significant first. *)
Fixpoint low_digits (width : nat) (n : N) : string :=
  match width with
  | O => ""
  | S w => low_digits w (n / 10) ++ String (digit (n mod 10)) ""
  end.

(** [num / den] rounded to the nearest integer, ties to even. *)
Definition round_half_even (num den : N) : N :=
  let q := (num / den)%N in
  let r := (num mod den)%N in
  match (2 * r ?= den)%N with
  | Lt => q
  | Gt => (q + 1)%N
  | Eq => if N.even q then q else (q + 1)%N
  end.

(** [|x| * 10^prec] rounded, for the finite float [m * 2^e]. *)
Definition scaled (prec : nat) (m : positive) (e : Z) : N :=
  let p := (10 ^ N.of_nat prec)%N in
  match e with
  | Z0 => (Npos m * p)%N
  | Zpos k => (Npos m * 2 ^ Npos k * p)%N
  | Zneg k => round_half_even (Npos m * p) (2 ^ Npos k)
  end.

Definition decimal (n : N) : string := NilZero.string_of_uint (N.to_uint n).

Definition fixed (prec : nat) (n : N) : string :=
  let p := (10 ^ N.of_nat prec)%N in
  decimal (n / p) ++
  match prec with
  | O => ""
  | S _ => "." ++ low_digits prec (n mod p)
  end.

Definition sign (s : bool) : string := if s then "-" else "".

Definition format_f (prec : nat) (x : float) : string :=
  match Prim2SF x with
  | S754_nan => "nan"
  | S754_infinity s => sign s ++ "inf"
  | S754_zero s => sign s ++ fixed prec 0
  | S754_finite s m e => sign s ++ fixed prec (scaled prec m e)
  end.

(** Neither [nan] nor an infinity. *)
Definition is_finite (x : float) : bool :=
  match Prim2SF x with
  | S754_zero _ | S754_finite _ _ _ => true
  | S754_nan | S754_infinity _ => false
  end.

End Py.

Import Py.

Declare Scope py_scope.
Delimit Scope py_scope with py.
Notation "x <- m ;; k" := (bind m (fun x => k))
  (at level 61, m at next level, right associativity) : py_scope.
Notation "m ;; k" := (bind m (fun _ => k))
  (at level 61, right associativity) : py_scope.
#[local] Open Scope py_scope.

(* ===================================================================== *)
(** ** The augmentation pipeline and the run name                         *)
(* ===================================================================== *)

(** The parsed command line, with the attributes the functions below read.
    The five augmentation options are declared by [data_aug_args] with
    [type=float] and no default, so each holds a float or [None];
    [--epochs] and [--log-interval] are ints. *)
Record Namespace : Set := {
  drop_probability : option float;
  flip_lr_probability : option float;
  flip_ud_probability : option float;
  refractory_period : option float;
  time_jitter : option float;
  epochs : Z;
  log_interval : Z
}.

Inductive dtype : Set := float32.

(** The transform objects of module [T] that the script constructs. *)
Inductive Transform : Set :=
| DropEvent (p : float)
| FlipLR (p : float)
| FlipUD (p : float)
| RefractoryPeriod (p : float)
| TimeJitter (p : float)
| Volume (discrete_xy : bool)
| NumpyAsType (t : dtype).

(** [T.Compose(transforms)]: the steps, applied left to right. *)
Inductive Pipeline : Set :=
| Compose (transforms : list Transform).

(** Standard output, one entry per [print] call. *)
Definition Stdout : Type := list string.

Definition print (line : string) : M Stdout unit :=
  modify (fun out => (out ++ [line])%list).

(** [create_data_aug(args, train=True)].  A guard
    [args.x is not None and train] is the [match] on the attribute followed
    by the test of [train]; the inner comparison reads the attribute the
    source names. *)
Definition create_data_aug (args : Namespace) (train : bool)
  : M Stdout Pipeline :=
  let augmentations : list Transform := [] in
  augmentations <-
    (match drop_probability args with
     | Some p =>
         if train then
           above <- gt (drop_probability args) 1e-4 ;;
           if above : bool then
             let augmentations := (augmentations ++ [DropEvent p])%list in
             print ("- DropEvent : " ++ format_f 6 p) ;;
             ret augmentations
           else ret augmentations
         else ret augmentations
     | None => ret augmentations
     end) ;;
  augmentations <-
    (match flip_lr_probability args with
     | Some p =>
         if train then
           above <- gt (flip_lr_probability args) 1e-4 ;;
           if above : bool then
             let augmentations := (augmentations ++ [FlipLR p])%list in
             print ("- FlipLR : " ++ format_f 6 p) ;;
             ret augmentations
           else ret augmentations
         else ret augmentations
     | None => ret augmentations
     end) ;;
  augmentations <-
    (match flip_ud_probability args with
     | Some p =>
         if train then
           above <- gt (flip_lr_probability args) 1e-4 ;;
           if above : bool then
             let augmentations := (augmentations ++ [FlipUD p])%list in
             print ("- FlipUD : " ++ format_f 6 p) ;;
             ret augmentations
           else ret augmentations
         else ret augmentations
     | None => ret augmentations
     end) ;;
  augmentations <-
    (match refractory_period args with
     | Some p =>
         if train then
           above <- gt (refractory_period args) 1e-4 ;;
           if above : bool then
             let augmentations := (augmentations ++ [RefractoryPeriod p])%list in
             print ("- RefractoryPeriod : " ++ format_f 6 p) ;;
             ret augmentations
           else ret augmentations
         else ret augmentations
     | None => ret augmentations
     end) ;;
  augmentations <-
    (match time_jitter args with
     | Some p =>
         if train then
           above <- gt (time_jitter args) 1e-4 ;;
           if above : bool then
             (* [arguments.append(...)]: the name [arguments] is unbound *)
             raise NameError
           else ret augmentations
         else ret augmentations
     | None => ret augmentations
     end) ;;
  let augmentations := (augmentations ++ [Volume true])%list in
  print "- Volume" ;;
  let augmentations := (augmentations ++ [NumpyAsType float32])%list in
  print "- NumpyAsType" ;;
  ret (Compose augmentations).

(** [create_data_aug_name(args)] *)
Definition create_data_aug_name (args : Namespace) : string :=
  let name := "" in
  let name :=
    match drop_probability args with
    | Some p => name ++ "_dp_" ++ format_f 2 p
    | None => name
    end in
  let name :=
    match flip_lr_probability args with
    | Some p => name ++ "_flr_" ++ format_f 2 p
    | None => name
    end in
  let name :=
    match flip_ud_probability args with
    | Some p => name ++ "_fud_" ++ format_f 2 p
    | None => name
    end in
  let name :=
    match refractory_period args with
    | Some p => name ++ "_rp_" ++ format_f 2 p
    | None => name
    end in
  let name :=
    match time_jitter args with
    | Some p => name ++ "_tj_" ++ format_f 2 p
    | None => name
    end in
  name.

(** *** The words of the specification, for comparison *)

(** The pipeline when no optional step is included. *)
Definition two_step : Pipeline := Compose [Volume true; NumpyAsType float32].

(** The code of every option that is present, in the fixed order drop,
    flip-LR, flip-UD, refractory, jitter, with its value. *)
Definition present_options (args : Namespace) : list (string * float) :=
  let entry (tag : string) (v : option float) :=
    match v with Some p => [(tag, p)] | None => [] end in
  (entry "_dp_" (drop_probability args) ++
   entry "_flr_" (flip_lr_probability args) ++
   entry "_fud_" (flip_ud_probability args) ++
   entry "_rp_" (refractory_period args) ++
   entry "_tj_" (time_jitter args))%list.

(** One segment: the tag, then the value with two decimal places. *)
Definition segment (o : string * float) : string :=
  fst o ++ format_f 2 (snd o).

(** A decimal with exactly two digits after the point. *)
Definition two_decimals (s : string) : Prop :=
  exists (neg : bool) (int d1 d2 : N),
    (d1 < 10)%N /\ (d2 < 10)%N /\
    s = sign neg ++ decimal int ++ "." ++
        String (digit d1) (String (digit d2) "").

(** An option is disabled when it is unset or at most [1e-4]. *)
Definition disabled (v : option float) : bool :=
  match v with
  | Some p => PrimFloat.leb p 1e-4
  | None => true
  end.

Definition all_disabled (args : Namespace) : bool :=
  disabled (drop_probability args) && disabled (flip_lr_probability args) &&
  disabled (flip_ud_probability args) && disabled (refractory_period args) &&
  disabled (time_jitter args).

Definition all_unset (args : Namespace) : Prop :=
  drop_probability args = None /\ flip_lr_probability args = None /\
  flip_ud_probability args = None /\ refractory_period args = None /\
  time_jitter args = None.

(** A namespace with the given augmentation options and the defaults of
    [--epochs] and [--log-interval]. *)
Definition options (dp flr fud rp tj : option float) : Namespace :=
  {| drop_probability := dp; flip_lr_probability := flr;
     flip_ud_probability := fud; refractory_period := rp;
     time_jitter := tj; epochs := 10; log_interval := 10 |}.

(* ===================================================================== *)
(** ** The training and evaluation loops                                  *)
(* ===================================================================== *)

(** [reduction=] of [F.nll_loss]: the default averages over the batch. *)
Inductive reduction : Set := Mean | Sum.

Section Loop.

(** *** Collaborators

    [num] stands for the Python floats the loops handle; [of_Q] rounds an
    exact rational to a float, which is what an int-by-int true division
    and the conversion of an int do. *)
Variable num : Type.
Variable of_Q : Q -> num.
Variable add : num -> num -> num.
Variable div : num -> num -> num.
Variable le : num -> num -> Prop.
Hypothesis of_Q_mono : forall p q : Q, (p <= q)%Q -> le (of_Q p) (of_Q q).

(** One sample, the network's parameters, the optimiser's buffers. *)
Variable Input : Type.
Variable Params : Type.
Variable OptState : Type.

(** [Net.forward] on one sample: its row of class scores. *)
Variable forward : Params -> Input -> list num.
(** [F.nll_loss(output, target, reduction=...).item()] *)
Variable nll_loss : list (list num) -> list Z -> reduction -> num.
(** [row.argmax()]: the index of the maximum score. *)
Variable argmax : list num -> Z.
(** [optimizer.zero_grad(); loss.backward(); optimizer.step()] for the loss
    of a batch. *)
Variable sgd_step :
  Params -> OptState -> list Input -> list Z -> Params * OptState.

(** A batch [(data, target)], as the list of its labelled samples. *)
Definition Batch : Type := list (Input * Z).
Definition data (batch : Batch) : list Input := map fst batch.
Definition target (batch : Batch) : list Z := map snd batch.

(** A [DataLoader]: [len(loader.dataset)] and the batches one iteration of
    it yields. *)
Record DataLoader : Type := {
  dataset_len : Z;
  batches : list Batch
}.

(** One [add_scalar(tag, value, global_step)] call on the writer. *)
Record Scalar : Type := {
  tag : string;
  value : num;
  step : Z
}.

(** What the loops mutate: the model, the optimiser, and the module globals
    [global_step] and [log_writer] ([None] until [main] opens the
    [SummaryWriter]; then the calls it has received). *)
Record World : Type := {
  parameters : Params;
  training : bool;
  optimizer : OptState;
  global_step : Z;
  log_writer : option (list Scalar)
}.

Definition set_training (b : bool) (w : World) : World :=
  {| parameters := parameters w; training := b; optimizer := optimizer w;
     global_step := global_step w; log_writer := log_writer w |}.

Definition set_model (po : Params * OptState) (w : World) : World :=
  {| parameters := fst po; training := training w; optimizer := snd po;
     global_step := global_step w; log_writer := log_writer w |}.

Definition set_global_step (g : Z) (w : World) : World :=
  {| parameters := parameters w; training := training w;
     optimizer := optimizer w; global_step := g;
     log_writer := log_writer w |}.

Definition set_log_writer (calls : list Scalar) (w : World) : World :=
  {| parameters := parameters w; training := training w;
     optimizer := optimizer w; global_step := global_step w;
     log_writer := Some calls |}.

(** [log_writer.add_scalar(tag, value, step)] *)
Definition add_scalar (t : string) (v : num) (s : Z) : M World unit :=
  fun w =>
    match log_writer w with
    | Some calls =>
        let call := {| tag := t; value := v; step := s |} in
        (inr tt, set_log_writer (calls ++ [call])%list w)
    | None => (inl AttributeError, w)
    end.

(** [log(scalars, mode)]: the dict is the list of its items, in order. *)
Fixpoint log (scalars : list (string * num)) (mode : string)
  : M World unit :=
  match scalars with
  | [] => ret tt
  | (k, v) :: rest =>
      w <- get ;;
      add_scalar (mode ++ "/" ++ k) v (global_step w) ;;
      log rest mode
  end.

(** The body of the [for] loop of [train], from batch [batch_idx] on. *)
Fixpoint train_loop (args : Namespace) (batch_idx : nat)
  (train_loader : list Batch) : M World unit :=
  match train_loader with
  | [] => ret tt
  | batch :: rest =>
      w <- get ;;
      let output := map (forward (parameters w)) (data batch) in
      let loss := nll_loss output (target batch) Mean in
      modify (set_model
                (sgd_step (parameters w) (optimizer w)
                   (data batch) (target batch))) ;;
      r <- rem (Z.of_nat batch_idx) (log_interval args) ;;
      (if r =? 0 then
         log [("loss", loss)] "train" ;;
         modify (fun w => set_global_step (global_step w + 1) w)
       else ret tt) ;;
      train_loop args (S batch_idx) rest
  end.

(** [train(args, model, device, train_loader, optimizer, epoch)]; the model
    and the optimiser live in the store, the device changes no value. *)
Definition train (args : Namespace) (train_loader : DataLoader) (epoch : Z)
  : M World unit :=
  modify (set_training true) ;;
  train_loop args 0 (batches train_loader).

(** [pred.eq(target.view_as(pred)).sum().item()] *)
Definition count_eq (pred target : list Z) : Z :=
  Z.of_nat (List.length (filter (fun pt => fst pt =? snd pt) (combine pred target))).

(** The body of the [for] loop of [test] on one batch. *)
Definition test_batch (p : Params) (acc : num * Z) (batch : Batch) : num * Z :=
  let '(test_loss, correct) := acc in
  let output := map (forward p) (data batch) in
  let test_loss := add test_loss (nll_loss output (target batch) Sum) in
  let pred := map argmax output in
  let correct := correct + count_eq pred (target batch) in
  (test_loss, correct).

(** [test(args, model, device, test_loader)]; [test_loss] starts as the
    int 0, which the first [+=] of a float converts. *)
Definition test (args : Namespace) (test_loader : DataLoader)
  : M World unit :=
  modify (set_training false) ;;
  w <- get ;;
  let '(test_loss, correct) :=
    fold_left (test_batch (parameters w)) (batches test_loader)
      (of_Q 0, 0) in
  let n := dataset_len test_loader in
  if n =? 0 then raise ZeroDivisionError else
  let test_loss := div test_loss (of_Q (inject_Z n)) in
  log [("loss", test_loss);
       ("accuracy", of_Q (inject_Z correct / inject_Z n))] "test".

(** The epoch loop of [main], [for epoch in range(1, args.epochs + 1)]:
    [remaining] epochs from [epoch] on.  A loader that shuffles yields its
    batches in another order at each pass, so the loaders are given by
    epoch. *)
Fixpoint epoch_loop (args : Namespace)
  (train_loader test_loader : Z -> DataLoader) (epoch : Z) (remaining : nat)
  : M World unit :=
  match remaining with
  | O => ret tt
  | S k =>
      train args (train_loader epoch) epoch ;;
      test args (test_loader epoch) ;;
      epoch_loop args train_loader test_loader (epoch + 1) k
  end.

Definition main_loop (args : Namespace)
  (train_loader test_loader : Z -> DataLoader) : M World unit :=
  epoch_loop args train_loader test_loader 1 (Z.to_nat (epochs args)).

(** *** The words of the specification, for comparison *)

(** The calls the writer has received so far. *)
Definition calls (w : World) : list Scalar :=
  match log_writer w with Some cs => cs | None => [] end.

(** The scalars a training pass has logged. *)
Definition is_train_record (c : Scalar) : bool := String.eqb (tag c) "train/loss".
Definition train_records (w : World) : list Scalar :=
  filter is_train_record (calls w).

(** [ceil(n / d)] *)
Definition ceil_div (n d : nat) : nat := ((n + d - 1) / d)%nat.

(** The loss of every batch of a training pass, each computed with the
    parameters the earlier batches have left. *)
Fixpoint batch_losses (p : Params) (o : OptState) (bs : list Batch)
  : list num :=
  match bs with
  | [] => []
  | b :: rest =>
      nll_loss (map (forward p) (data b)) (target b) Mean ::
      let po := sgd_step p o (data b) (target b) in
      batch_losses (fst po) (snd po) rest
  end.

(** The summed loss of each batch of an evaluation pass. *)
Definition summed_losses (p : Params) (bs : list Batch) : list num :=
  map (fun b => nll_loss (map (forward p) (data b)) (target b) Sum) bs.

(** A sample is classified correctly when the index of its maximum score
    is its label. *)
Definition classified (p : Params) (s : Input * Z) : bool :=
  argmax (forward p (fst s)) =? snd s.

(** The correctly classified samples among all the samples of a pass. *)
Definition correct_count (p : Params) (bs : list Batch) : Z :=
  Z.of_nat (List.length (filter (classified p) (List.concat bs))).

(** The number of samples of a pass. *)
Definition sample_count (bs : list Batch) : Z :=
  Z.of_nat (List.length (List.concat bs)).

(** The parameters and optimiser buffers a training pass leaves. *)
Fixpoint trained (p : Params) (o : OptState) (bs : list Batch)
  : Params * OptState :=
  match bs with
  | [] => (p, o)
  | b :: rest =>
      let po := sgd_step p o (data b) (target b) in
      trained (fst po) (snd po) rest
  end.

(** Of the losses of the batches [batch_idx], [batch_idx + 1], ..., those
    of a batch whose index the interval divides. *)
Fixpoint logged (interval : Z) (batch_idx : nat) (losses : list num)
  : list num :=
  match losses with
  | [] => []
  | l :: rest =>
      ((if Z.of_nat batch_idx mod interval =? 0 then [l] else []) ++
       logged interval (S batch_idx) rest)%list
  end.

(** Training records for the given losses, numbered from step [g]. *)
Fixpoint numbered (g : Z) (losses : list num) : list Scalar :=
  match losses with
  | [] => []
  | l :: rest =>
      {| tag := "train/loss"; value := l; step := g |} ::
      numbered (g + 1) rest
  end.

(** A relation between the store before a computation and the store it
    leaves, however it ends. *)
Definition relates {A} (R : World -> World -> Prop) (m : M World A) : Prop :=
  forall w, R w (snd (m w)).

(** The steps [g], [g + 1], [g + 2], ... *)
Fixpoint consecutive (g : Z) (steps : list Z) : Prop :=
  match steps with
  | [] => True
  | s :: rest => s = g /\ consecutive (g + 1) rest
  end.

(** From [v] to [w] the step counter has counted the training records:
    each new record carries the value the counter had when it was emitted,
    and the counter has moved by one per record. *)
Definition counted (v w : World) : Prop :=
  exists new : list Scalar,
    train_records w = (train_records v ++ new)%list /\
    consecutive (global_step v) (map step new) /\
    global_step w = global_step v + Z.of_nat (List.length new).

(** What an evaluation pass may do to the store [v]: it leaves the
    parameters, the optimiser and the step counter alone, and every call
    it adds to the writer carries the step of [v]. *)
Definition evaluated (v w : World) : Prop :=
  parameters w = parameters v /\ optimizer w = optimizer v /\
  global_step w = global_step v /\
  exists new : list Scalar,
    calls w = (calls v ++ new)%list /\
    Forall (fun c => step c = global_step v) new.

(* --------------------------------------------------------------------- *)
(** *** Lemmas on the loops                                               *)
(* --------------------------------------------------------------------- *)

Lemma bind_ok {S A B} (m : M S A) (k : A -> M S B) s a s' :
  m s = (inr a, s') -> bind m k s = k a s'.
Proof. intros H. unfold bind. now rewrite H. Qed.

Lemma bind_raise {S A B} (m : M S A) (k : A -> M S B) s e s' :
  m s = (inl e, s') -> bind m k s = (inl e, s').
Proof. intros H. unfold bind. now rewrite H. Qed.

Lemma rem_ok {S} (a b : Z) (s : S) :
  b <> 0 -> rem a b s = (inr (a mod b), s).
Proof.
  intros Hb. unfold rem. destruct (Z.eqb_spec b 0); [contradiction|reflexivity].
Qed.

Lemma world_eta (w : World) :
  w = {| parameters := parameters w; training := training w;
         optimizer := optimizer w; global_step := global_step w;
         log_writer := log_writer w |}.
Proof. destruct w; reflexivity. Qed.

Lemma log_open scalars mode : forall w cs,
  log_writer w = Some cs ->
  log scalars mode w =
  (inr tt,
   set_log_writer
     (cs ++ map (fun kv => {| tag := mode ++ "/" ++ fst kv;
                              value := snd kv;
                              step := global_step w |}) scalars)%list w).
Proof.
  induction scalars as [|[k v] rest IH]; intros w cs Hw; simpl.
  - unfold ret, set_log_writer. rewrite app_nil_r, <- Hw.
    f_equal. apply world_eta.
  - unfold bind, get, add_scalar. rewrite Hw.
    rewrite (IH _ (cs ++ [{| tag := mode ++ "/" ++ k; value := v;
                             step := global_step w |}])%list)
      by reflexivity.
    unfold set_log_writer; simpl. rewrite <- app_assoc. reflexivity.
Qed.

Lemma log_closed k v rest mode w :
  log_writer w = None ->
  log ((k, v) :: rest) mode w = (inl AttributeError, w).
Proof.
  intros Hw. simpl. unfold bind, get, add_scalar. rewrite Hw. reflexivity.
Qed.

Lemma numbered_length g losses :
  List.length (numbered g losses) = List.length losses.
Proof.
  revert g; induction losses as [|l rest IH]; intros g; simpl;
    [reflexivity | now rewrite IH].
Qed.

Lemma numbered_app losses1 : forall g losses2,
  numbered g (losses1 ++ losses2) =
  (numbered g losses1 ++
   numbered (g + Z.of_nat (List.length losses1)) losses2)%list.
Proof.
  induction losses1 as [|l rest IH]; intros g losses2; simpl.
  - now rewrite Z.add_0_r.
  - rewrite IH. do 3 f_equal. lia.
Qed.

Lemma train_loop_cons args batch_idx batch rest :
  train_loop args batch_idx (batch :: rest) =
  (w <- get ;;
   let output := map (forward (parameters w)) (data batch) in
   let loss := nll_loss output (target batch) Mean in
   modify (set_model
             (sgd_step (parameters w) (optimizer w)
                (data batch) (target batch))) ;;
   r <- rem (Z.of_nat batch_idx) (log_interval args) ;;
   (if r =? 0 then
      log [("loss", loss)] "train" ;;
      modify (fun w => set_global_step (global_step w + 1) w)
    else ret tt) ;;
   train_loop args (S batch_idx) rest).
Proof. reflexivity. Qed.

(** Logging a training loss and counting it, with the writer open. *)
Lemma log_and_count_open loss w cs :
  log_writer w = Some cs ->
  (log [("loss", loss)] "train" ;;
   modify (fun w => set_global_step (global_step w + 1) w)) w =
  (inr tt,
   {| parameters := parameters w; training := training w;
      optimizer := optimizer w; global_step := global_step w + 1;
      log_writer := Some (cs ++ numbered (global_step w) [loss])%list |}).
Proof.
  intros Hw. erewrite bind_ok by (apply log_open; exact Hw). reflexivity.
Qed.

(** A training pass with an open writer and a positive interval ends
    normally; it leaves the trained model, and has given the writer the
    logged losses, numbered from the step it started at. *)
Lemma train_loop_run args : forall bs batch_idx w cs,
  0 < log_interval args ->
  log_writer w = Some cs ->
  let ls := logged (log_interval args) batch_idx
              (batch_losses (parameters w) (optimizer w) bs) in
  train_loop args batch_idx bs w =
  (inr tt,
   {| parameters := fst (trained (parameters w) (optimizer w) bs);
      training := training w;
      optimizer := snd (trained (parameters w) (optimizer w) bs);
      global_step := global_step w + Z.of_nat (List.length ls);
      log_writer := Some (cs ++ numbered (global_step w) ls)%list |}).
Proof.
  induction bs as [|b rest IH]; intros batch_idx w cs Hpos Hw ls.
  - subst ls; simpl. unfold ret. rewrite Z.add_0_r, app_nil_r, <- Hw.
    f_equal. apply world_eta.
  - rewrite train_loop_cons.
    erewrite bind_ok by reflexivity. cbv zeta.
    erewrite bind_ok by reflexivity.
    erewrite bind_ok by (apply rem_ok; lia).
    set (w1 := set_model _ w).
    subst ls. cbn [batch_losses logged].
    destruct (Z.of_nat batch_idx mod log_interval args =? 0).
    + erewrite bind_ok by (apply (log_and_count_open _ w1 cs); exact Hw).
      match goal with
      | |- train_loop _ _ _ ?w2 = _ =>
          rewrite (IH (S batch_idx) w2
                     (cs ++ numbered (global_step w1) [nll_loss
                        (map (forward (parameters w)) (data b))
                        (target b) Mean])%list Hpos eq_refl)
      end.
      subst w1. cbn -[Z.add Z.of_nat]. f_equal. f_equal.
      * rewrite Nat2Z.inj_succ. lia.
      * rewrite <- app_assoc. reflexivity.
    + erewrite bind_ok by reflexivity.
      rewrite (IH (S batch_idx) w1 cs Hpos Hw).
      subst w1; reflexivity.
Qed.

(** *** Which batches are logged *)

Lemma div_eq (a b q r : nat) :
  (r < b)%nat -> a = (b * q + r)%nat -> (a / b)%nat = q.
Proof. intros Hr Ha. symmetry. now apply Nat.div_unique with r. Qed.

Lemma ceil_div_succ (l n : nat) :
  (0 < l)%nat ->
  ceil_div (S n) l =
  if (n mod l =? 0)%nat then S (ceil_div n l) else ceil_div n l.
Proof.
  intros Hl. unfold ceil_div.
  pose proof (Nat.div_mod_eq n l) as Hn.
  pose proof (Nat.mod_upper_bound n l ltac:(lia)) as Hr.
  destruct (Nat.eqb_spec (n mod l) 0) as [H0|H0].
  - rewrite (div_eq (n + l - 1)%nat l (n / l)%nat (l - 1)%nat) by lia.
    apply div_eq with 0%nat; lia.
  - rewrite (div_eq (n + l - 1)%nat l (S (n / l)%nat) (n mod l - 1)%nat) by lia.
    apply div_eq with (n mod l)%nat; lia.
Qed.

Lemma ceil_div_exact (l n : nat) :
  (0 < l)%nat -> (n mod l)%nat = 0%nat -> (ceil_div n l * l)%nat = n.
Proof.
  intros Hl H0. unfold ceil_div.
  pose proof (Nat.div_mod_eq n l) as Hn.
  rewrite (div_eq (n + l - 1)%nat l (n / l)%nat (l - 1)%nat) by lia. lia.
Qed.

(** The indices below [n] that [l] divides are 0, [l], [2 l], ...: there
    are [ceil (n / l)] of them. *)
Lemma multiples_below (l n : nat) :
  (0 < l)%nat ->
  filter (fun i => (i mod l =? 0)%nat) (seq 0 n) =
  map (fun k => (k * l)%nat) (seq 0 (ceil_div n l)).
Proof.
  intros Hl. induction n as [|n IH].
  - unfold ceil_div. rewrite (div_eq (0 + l - 1)%nat l 0%nat (l - 1)%nat) by lia.
    reflexivity.
  - rewrite seq_S, filter_app, IH, ceil_div_succ by exact Hl.
    cbn [filter Nat.add].
    destruct (Nat.eqb_spec (n mod l) 0) as [H0|H0].
    + rewrite seq_S, map_app. cbn [map Nat.add].
      now rewrite ceil_div_exact.
    + apply app_nil_r.
Qed.

Lemma divides_nat (l i : nat) :
  (0 < l)%nat ->
  (Z.of_nat i mod Z.of_nat l =? 0) = (i mod l =? 0)%nat.
Proof.
  intros Hl. rewrite <- Nat2Z.inj_mod.
  destruct (Nat.eqb_spec (i mod l) 0) as [H0|H0].
  - rewrite H0. reflexivity.
  - apply Z.eqb_neq. lia.
Qed.

Lemma logged_filter (interval : Z) (d : num) : forall losses batch_idx,
  logged interval batch_idx losses =
  map (fun i => nth (i - batch_idx) losses d)
    (filter (fun i => Z.of_nat i mod interval =? 0)
       (seq batch_idx (List.length losses))).
Proof.
  induction losses as [|l rest IH]; intros batch_idx; [reflexivity|].
  cbn [logged List.length seq filter].
  rewrite IH.
  assert (Hrest :
    map (fun i => nth (i - S batch_idx) rest d)
      (filter (fun i => Z.of_nat i mod interval =? 0)
         (seq (S batch_idx) (List.length rest))) =
    map (fun i => nth (i - batch_idx) (l :: rest) d)
      (filter (fun i => Z.of_nat i mod interval =? 0)
         (seq (S batch_idx) (List.length rest)))).
  { apply map_ext_in. intros i Hi.
    apply filter_In in Hi. destruct Hi as [Hi _]. apply in_seq in Hi.
    replace (i - batch_idx)%nat with (S (i - S batch_idx)) by lia.
    reflexivity. }
  rewrite Hrest.
  destruct (Z.of_nat batch_idx mod interval =? 0); cbn [map app];
    [rewrite Nat.sub_diag|]; reflexivity.
Qed.

Lemma numbered_map (f : nat -> num) (g : Z) : forall c a,
  numbered (g + Z.of_nat a) (map f (seq a c)) =
  map (fun k => {| tag := "train/loss"; value := f k;
                   step := g + Z.of_nat k |}) (seq a c).
Proof.
  induction c as [|c IH]; intros a; [reflexivity|].
  cbn [seq map numbered]. f_equal.
  rewrite <- IH. f_equal. lia.
Qed.

(** The records of a pass over [losses], which starts at step [g]: the
    [k]-th is the loss of batch [k * interval], at step [g + k]. *)
Lemma numbered_logged (interval : Z) (g : Z) (d : num) (losses : list num) :
  0 < interval ->
  numbered g (logged interval 0 losses) =
  map (fun k => {| tag := "train/loss";
                   value := nth (k * Z.to_nat interval) losses d;
                   step := g + Z.of_nat k |})
    (seq 0 (ceil_div (List.length losses) (Z.to_nat interval))).
Proof.
  intros Hpos.
  assert (Hl : (0 < Z.to_nat interval)%nat) by lia.
  rewrite (logged_filter interval d).
  rewrite (filter_ext _ (fun i => (i mod Z.to_nat interval =? 0)%nat)).
  2:{ intros i. rewrite <- (divides_nat _ i Hl). now rewrite Z2Nat.id by lia. }
  rewrite multiples_below, map_map by exact Hl.
  rewrite <- (numbered_map _ g _ 0), Z.add_0_r.
  f_equal. apply map_ext. intros k. now rewrite Nat.sub_0_r.
Qed.

(** *** Relations kept along a computation *)

Lemma relates_bind {A B} (R : World -> World -> Prop)
  (m : M World A) (k : A -> M World B) :
  (forall u v w, R u v -> R v w -> R u w) ->
  relates R m -> (forall a, relates R (k a)) -> relates R (bind m k).
Proof.
  intros Htrans Hm Hk w. unfold bind.
  specialize (Hm w). destruct (m w) as [[e|a] w1]; cbn [snd] in *.
  - exact Hm.
  - exact (Htrans _ _ _ Hm (Hk a w1)).
Qed.

Lemma consecutive_app (l1 : list Z) : forall g l2,
  consecutive g l1 -> consecutive (g + Z.of_nat (List.length l1)) l2 ->
  consecutive g (l1 ++ l2).
Proof.
  induction l1 as [|s rest IH]; intros g l2 H1 H2; cbn [app].
  - cbn [List.length Z.of_nat] in H2. now rewrite Z.add_0_r in H2.
  - destruct H1 as [Hs Hrest]. split; [exact Hs|].
    apply IH; [exact Hrest|].
    replace (g + 1 + Z.of_nat (List.length rest))
      with (g + Z.of_nat (List.length (s :: rest)))
      by (cbn [List.length]; lia).
    exact H2.
Qed.

Lemma consecutive_seq (l : list Z) : forall a,
  consecutive (Z.of_nat a) l -> l = map Z.of_nat (seq a (List.length l)).
Proof.
  induction l as [|s rest IH]; intros a H; [reflexivity|].
  destruct H as [Hs Hrest]. cbn [List.length seq map]. f_equal; [exact Hs|].
  apply IH. now rewrite Nat2Z.inj_succ, <- Z.add_1_r.
Qed.

Lemma counted_refl (w : World) : counted w w.
Proof.
  exists []. rewrite app_nil_r. cbn. repeat split. lia.
Qed.

Lemma counted_trans (u v w : World) :
  counted u v -> counted v w -> counted u w.
Proof.
  intros (n1 & Hr1 & Hc1 & Hg1) (n2 & Hr2 & Hc2 & Hg2).
  exists (n1 ++ n2)%list. repeat split.
  - now rewrite Hr2, Hr1, app_assoc.
  - rewrite map_app. apply consecutive_app; [exact Hc1|].
    now rewrite length_map, <- Hg1.
  - rewrite length_app, Nat2Z.inj_add. lia.
Qed.

Lemma counted_same (v w : World) :
  train_records w = train_records v -> global_step w = global_step v ->
  counted v w.
Proof.
  intros Hr Hg. exists []. rewrite app_nil_r. cbn. repeat split;
    [exact Hr | lia].
Qed.

Lemma counted_le (v w : World) :
  counted v w -> global_step v <= global_step w.
Proof. intros (n & _ & _ & Hg). lia. Qed.

(** Logging one training loss and counting it. *)
Lemma counted_log_and_count (loss : num) :
  relates counted
    (log [("loss", loss)] "train" ;;
     modify (fun w => set_global_step (global_step w + 1) w)).
Proof.
  intros w. destruct (log_writer w) as [cs|] eqn:Hw.
  - rewrite (log_and_count_open _ _ cs Hw). cbn [snd].
    exists [{| tag := "train/loss"; value := loss; step := global_step w |}].
    unfold train_records, calls. cbn [log_writer numbered].
    rewrite Hw, filter_app. cbn. repeat split.
  - erewrite bind_raise by (apply log_closed; exact Hw).
    apply counted_refl.
Qed.

Lemma counted_train_loop (args : Namespace) : forall bs batch_idx,
  relates counted (train_loop args batch_idx bs).
Proof.
  induction bs as [|b rest IH]; intros batch_idx.
  - intros w. apply counted_refl.
  - rewrite train_loop_cons.
    apply relates_bind; [exact counted_trans | intros w; apply counted_refl |].
    intros w0. cbv zeta.
    apply relates_bind; [exact counted_trans | |].
    { intros w. now apply counted_same. }
    intros _. apply relates_bind; [exact counted_trans | |].
    { intros w. unfold rem. destruct (_ =? 0); apply counted_refl. }
    intros r. apply relates_bind; [exact counted_trans | | intros _; apply IH].
    destruct (r =? 0).
    + apply counted_log_and_count.
    + intros w. apply counted_refl.
Qed.

Lemma counted_train (args : Namespace) (loader : DataLoader) (epoch : Z) :
  relates counted (train args loader epoch).
Proof.
  unfold train.
  apply relates_bind; [exact counted_trans | |].
  - intros w. now apply counted_same.
  - intros _. apply counted_train_loop.
Qed.

(** *** The evaluation pass *)

(** [test] in one piece: the mode switch, the pass over the batches, the
    division, the single [log] call. *)
Lemma test_unfold (args : Namespace) (loader : DataLoader) (w : World) :
  test args loader w =
  let w1 := set_training false w in
  let acc := fold_left (test_batch (parameters w)) (batches loader)
               (of_Q 0, 0) in
  let n := dataset_len loader in
  if n =? 0 then (inl ZeroDivisionError, w1) else
  log [("loss", div (fst acc) (of_Q (inject_Z n)));
       ("accuracy", of_Q (inject_Z (snd acc) / inject_Z n))] "test" w1.
Proof.
  unfold test, bind, modify, get. cbn [parameters set_training].
  destruct (fold_left _ _ _) as [test_loss correct].
  cbv zeta. destruct (dataset_len loader =? 0); reflexivity.
Qed.

Lemma count_eq_classified (p : Params) (b : Batch) :
  count_eq (map argmax (map (forward p) (data b))) (target b) =
  Z.of_nat (List.length (filter (classified p) b)).
Proof.
  unfold count_eq, data, target. f_equal.
  induction b as [|[x t] rest IH]; [reflexivity|].
  cbn [map combine filter fst snd]. unfold classified at 1. cbn [fst snd].
  destruct (argmax (forward p x) =? t); cbn [List.length]; now rewrite IH.
Qed.

Lemma correct_count_cons (p : Params) (b : Batch) (bs : list Batch) :
  correct_count p (b :: bs) =
  Z.of_nat (List.length (filter (classified p) b)) + correct_count p bs.
Proof.
  unfold correct_count. cbn [List.concat].
  now rewrite filter_app, length_app, Nat2Z.inj_add.
Qed.

(** The accumulators after the pass: the running sum of the summed batch
    losses, and the number of correctly classified samples. *)
Lemma fold_test_batch (p : Params) : forall bs test_loss correct,
  fold_left (test_batch p) bs (test_loss, correct) =
  (fold_left add (summed_losses p bs) test_loss,
   correct + correct_count p bs).
Proof.
  induction bs as [|b rest IH]; intros test_loss correct.
  - cbn. now rewrite Z.add_0_r.
  - cbn [fold_left summed_losses map]. unfold test_batch at 2.
    rewrite IH, count_eq_classified, correct_count_cons.
    f_equal. lia.
Qed.

Lemma correct_count_bounds (p : Params) (bs : list Batch) :
  0 <= correct_count p bs <= sample_count bs.
Proof.
  unfold correct_count, sample_count.
  pose proof (filter_length_le (classified p) (List.concat bs)). lia.
Qed.

(** A ratio of a part to a positive whole lies between 0 and 1. *)
Lemma ratio_bounds (c n : Z) :
  0 <= c <= n -> 0 < n ->
  (0 <= inject_Z c / inject_Z n)%Q /\ (inject_Z c / inject_Z n <= 1)%Q.
Proof.
  intros Hc Hn. destruct n as [|n|n]; try lia.
  unfold Qdiv, Qmult, Qinv, inject_Z, Qle. cbn. lia.
Qed.

Lemma train_records_set_training (b : bool) (w : World) :
  train_records (set_training b w) = train_records w.
Proof. reflexivity. Qed.

Lemma counted_test (args : Namespace) (loader : DataLoader) :
  relates counted (test args loader).
Proof.
  intros w. rewrite test_unfold. cbv zeta.
  destruct (dataset_len loader =? 0); [now apply counted_same|].
  set (w1 := set_training false w).
  destruct (log_writer w1) as [cs|] eqn:Hw.
  - rewrite (log_open _ _ w1 cs Hw). apply counted_same; [|reflexivity].
    unfold train_records, calls. cbn [snd set_log_writer log_writer].
    subst w1. cbn [set_training log_writer] in Hw. rewrite Hw.
    rewrite filter_app. cbn. apply app_nil_r.
  - rewrite (log_closed _ _ _ _ _ Hw). now apply counted_same.
Qed.

Lemma evaluated_test (args : Namespace) (loader : DataLoader) :
  relates evaluated (test args loader).
Proof.
  intros w. rewrite test_unfold. cbv zeta.
  destruct (dataset_len loader =? 0).
  - repeat split. exists []. now rewrite app_nil_r.
  - set (w1 := set_training false w).
    destruct (log_writer w1) as [cs|] eqn:Hw.
    + rewrite (log_open _ _ w1 cs Hw). repeat split.
      subst w1. cbn [set_training log_writer] in Hw.
      eexists. unfold calls. cbn [snd set_log_writer log_writer].
      rewrite Hw. split; [reflexivity|].
      repeat constructor.
    + rewrite (log_closed _ _ _ _ _ Hw). repeat split.
      exists []. now rewrite app_nil_r.
Qed.

Lemma counted_epoch_loop (args : Namespace)
  (train_loader test_loader : Z -> DataLoader) : forall remaining epoch,
  relates counted (epoch_loop args train_loader test_loader epoch remaining).
Proof.
  induction remaining as [|k IH]; intros epoch.
  - intros w. apply counted_refl.
  - cbn [epoch_loop].
    apply relates_bind;
      [exact counted_trans | apply counted_train | intros _].
    apply relates_bind;
      [exact counted_trans | apply counted_test | intros _; apply IH].
Qed.

Lemma batch_losses_length (bs : list Batch) : forall p o,
  List.length (batch_losses p o bs) = List.length bs.
Proof.
  induction bs as [|b rest IH]; intros p o; cbn [batch_losses List.length];
    [reflexivity | now rewrite IH].
Qed.

(* --------------------------------------------------------------------- *)
(** *** Theorems on the loops                                             *)
(* --------------------------------------------------------------------- *)

(** C6.  With the writer open and a positive [log_interval], one call of
    [train] over [n] batches ends normally and adds exactly
    [ceil (n / log_interval)] calls to the writer, all tagged
    ["train/loss"]: the [k]-th carries the loss of batch
    [k * log_interval], and these batch indices are exactly the indices
    below [n] that [log_interval] divides (0 among them). *)
Theorem train_logs_every_interval
  (args : Namespace) (train_loader : DataLoader) (epoch : Z)
  (w : World) (cs : list Scalar) :
  log_writer w = Some cs ->
  0 < log_interval args ->
  let n := List.length (batches train_loader) in
  let interval := Z.to_nat (log_interval args) in
  let losses :=
    batch_losses (parameters w) (optimizer w) (batches train_loader) in
  let records :=
    map (fun k => {| tag := "train/loss";
                     value := nth (k * interval) losses (of_Q 0);
                     step := global_step w + Z.of_nat k |})
      (seq 0 (ceil_div n interval)) in
  fst (train args train_loader epoch w) = inr tt /\
  log_writer (snd (train args train_loader epoch w)) =
    Some (cs ++ records)%list /\
  List.length records = ceil_div n interval /\
  map (fun k => (k * interval)%nat) (seq 0 (ceil_div n interval)) =
    filter (fun i => (i mod interval =? 0)%nat) (seq 0 n).
Proof.
  intros Hw Hpos n interval losses records.
  unfold train. erewrite bind_ok by reflexivity.
  rewrite (train_loop_run args _ 0 (set_training true w) cs Hpos Hw).
  cbn [fst snd log_writer set_training parameters optimizer global_step].
  repeat split.
  - rewrite (numbered_logged _ _ (of_Q 0)) by exact Hpos.
    now rewrite batch_losses_length.
  - subst records. now rewrite length_map, length_seq.
  - symmetry. apply multiples_below. lia.
Qed.

(** C7.  From a fresh start (step counter 0, no training record), after
    the epoch loop the step counter equals the number of training records
    and the records carry the steps 0, 1, 2, ... in order: each was
    emitted at the value the counter then had, and counted once.  From any
    store, [train] never lowers the counter, [test] leaves it as it is,
    and so the counter never decreases along the epochs. *)
Theorem global_step_counts_train_records
  (args : Namespace) (train_loader test_loader : Z -> DataLoader)
  (w : World) :
  global_step w = 0 ->
  train_records w = [] ->
  let w' := snd (main_loop args train_loader test_loader w) in
  let N := List.length (train_records w') in
  global_step w' = Z.of_nat N /\
  map step (train_records w') = map Z.of_nat (seq 0 N) /\
  (forall v loader epoch,
     counted v (snd (train args loader epoch v)) /\
     global_step v <= global_step (snd (train args loader epoch v))) /\
  (forall v loader,
     global_step (snd (test args loader v)) = global_step v) /\
  (forall v remaining epoch,
     global_step v <=
     global_step
       (snd (epoch_loop args train_loader test_loader epoch remaining v))).
Proof.
  intros Hg Hr w' N.
  destruct (counted_epoch_loop args train_loader test_loader
              (Z.to_nat (epochs args)) 1 w) as (new & Hnew & Hc & Hstep).
  fold (main_loop args train_loader test_loader) in Hnew, Hstep.
  fold w' in Hnew, Hstep. rewrite Hr in Hnew. cbn [app] in Hnew.
  rewrite Hg in Hc, Hstep.
  subst N. rewrite Hnew. repeat split.
  - exact Hstep.
  - change 0 with (Z.of_nat 0) in Hc. apply consecutive_seq in Hc.
    now rewrite length_map in Hc.
  - apply counted_train.
  - apply counted_le, counted_train.
  - intros v loader. apply (evaluated_test args loader v).
  - intros v remaining epoch. apply counted_le, counted_epoch_loop.
Qed.

(** C8.  With the writer open, over a loader whose dataset holds the
    samples of its batches (at least one), [test] ends normally after one
    pass and adds exactly two calls to the writer, both at the current
    step: ["test/loss"], the sum of the summed batch losses divided by the
    number of samples, and ["test/accuracy"], the number of correctly
    classified samples (the index of the maximum score is the label)
    divided by the number of samples.  The accuracy lies between 0 and 1,
    and is 0.7 for 7 correct samples out of 10. *)
Theorem test_reports_mean_loss_and_accuracy
  (args : Namespace) (test_loader : DataLoader) (w : World)
  (cs : list Scalar) :
  log_writer w = Some cs ->
  dataset_len test_loader = sample_count (batches test_loader) ->
  0 < dataset_len test_loader ->
  let p := parameters w in
  let total := dataset_len test_loader in
  let correct := correct_count p (batches test_loader) in
  let test_loss :=
    fold_left add (summed_losses p (batches test_loader)) (of_Q 0) in
  let mean_loss := div test_loss (of_Q (inject_Z total)) in
  let accuracy := of_Q (inject_Z correct / inject_Z total) in
  test args test_loader w =
    (inr tt,
     set_log_writer
       (cs ++ [ {| tag := "test/loss"; value := mean_loss;
                   step := global_step w |};
                {| tag := "test/accuracy"; value := accuracy;
                   step := global_step w |} ])%list
       (set_training false w)) /\
  le (of_Q 0) accuracy /\ le accuracy (of_Q 1) /\
  (correct = 7 -> total = 10 -> accuracy = of_Q 0.7).
Proof.
  intros Hw Hlen Hpos p total correct test_loss mean_loss accuracy.
  split; [|split; [|split]].
  - rewrite test_unfold. cbv zeta.
    destruct (Z.eqb_spec (dataset_len test_loader) 0) as [H0|_]; [lia|].
    rewrite fold_test_batch. cbn [fst snd].
    rewrite (log_open _ _ (set_training false w) cs Hw).
    reflexivity.
  - apply of_Q_mono, ratio_bounds; [|exact Hpos].
    subst total. rewrite Hlen. apply correct_count_bounds.
  - apply of_Q_mono, ratio_bounds; [|exact Hpos].
    subst total. rewrite Hlen. apply correct_count_bounds.
  - intros Hc Ht. subst accuracy. rewrite Hc, Ht. reflexivity.
Qed.

(** C9.  Whatever the store and however it ends, [test] leaves the model
    parameters, the optimiser and the step counter as they were; every
    call it adds to the writer carries the current step; and when it ends
    normally it has added the two scalars of its single record. *)
Theorem test_leaves_model_and_step
  (args : Namespace) (test_loader : DataLoader) (w : World) :
  let w' := snd (test args test_loader w) in
  parameters w' = parameters w /\
  optimizer w' = optimizer w /\
  global_step w' = global_step w /\
  exists new : list Scalar,
    calls w' = (calls w ++ new)%list /\
    Forall (fun c => step c = global_step w) new /\
    (fst (test args test_loader w) = inr tt ->
     map tag new = ["test/loss"; "test/accuracy"]).
Proof.
  intros w'. subst w'.
  destruct (evaluated_test args test_loader w) as (Hp & Ho & Hg & _).
  repeat (split; [assumption|]).
  rewrite test_unfold. cbv zeta.
  destruct (dataset_len test_loader =? 0).
  - exists []. cbn [fst snd]. rewrite app_nil_r.
    repeat split; [constructor | discriminate].
  - set (w1 := set_training false w).
    destruct (log_writer w1) as [cs|] eqn:Hw.
    + rewrite (log_open _ _ w1 cs Hw).
      subst w1. cbn [set_training log_writer] in Hw.
      eexists. unfold calls. cbn [snd set_log_writer log_writer].
      rewrite Hw. split; [reflexivity|].
      split; [repeat constructor | reflexivity].
    + rewrite (log_closed _ _ _ _ _ Hw).
      exists []. cbn [fst snd]. rewrite app_nil_r.
      repeat split; [constructor | discriminate].
Qed.
(* --------------------------------------------------------------------- *)
(** *** Further facts on the loops: errors, edge cases, composition       *)
(* --------------------------------------------------------------------- *)

(** The scalars [test] logs as the accuracy. *)
Definition is_accuracy (c : Scalar) : bool :=
  String.eqb (tag c) "test/accuracy".

(** The store after the optimiser step on the first batch of a pass. *)
Definition after_first_step (b : Batch) (w : World) : World :=
  set_model
    (sgd_step (parameters w) (optimizer w) (data b) (target b)) w.

(** [args] with another [--log-interval]. *)
Definition with_log_interval (interval : Z) (args : Namespace) : Namespace :=
  {| drop_probability := drop_probability args;
     flip_lr_probability := flip_lr_probability args;
     flip_ud_probability := flip_ud_probability args;
     refractory_period := refractory_period args;
     time_jitter := time_jitter args;
     epochs := epochs args;
     log_interval := interval |}.

Lemma train_loop_zero_interval (args : Namespace) (batch_idx : nat)
  (b : Batch) (rest : list Batch) (w : World) :
  log_interval args = 0 ->
  train_loop args batch_idx (b :: rest) w =
  (inl ZeroDivisionError, after_first_step b w).
Proof.
  intros H0. rewrite train_loop_cons.
  erewrite bind_ok by reflexivity. cbv zeta.
  erewrite bind_ok by reflexivity.
  erewrite bind_raise; [reflexivity|].
  unfold rem. rewrite H0. reflexivity.
Qed.

Lemma train_loop_closed_writer (args : Namespace)
  (b : Batch) (rest : list Batch) (w : World) :
  log_interval args <> 0 ->
  log_writer w = None ->
  train_loop args 0 (b :: rest) w =
  (inl AttributeError, after_first_step b w).
Proof.
  intros Hnz Hw. rewrite train_loop_cons.
  erewrite bind_ok by reflexivity. cbv zeta.
  erewrite bind_ok by reflexivity.
  erewrite bind_ok by (apply rem_ok; exact Hnz).
  cbn [Z.of_nat]. rewrite Z.mod_0_l by exact Hnz. cbn [Z.eqb].
  erewrite bind_raise; [reflexivity|].
  erewrite bind_raise; [reflexivity|].
  apply log_closed. exact Hw.
Qed.

Lemma divides_opp (a b : Z) : (a mod (- b) =? 0) = (a mod b =? 0).
Proof.
  destruct (Z.eq_dec b 0) as [->|Hb]; [reflexivity|].
  destruct (Z.eqb_spec (a mod b) 0) as [H|H].
  - apply Z.eqb_eq. apply Z.mod_divide; [lia|].
    apply Z.divide_opp_l. apply Z.mod_divide; assumption.
  - apply Z.eqb_neq. intros H'. apply H.
    apply Z.mod_divide; [assumption|].
    apply Z.divide_opp_l. apply Z.mod_divide; [lia | exact H'].
Qed.

(** One turn of the loop of [train]. *)
Lemma train_loop_step (args : Namespace) (batch_idx : nat)
  (b : Batch) (rest : list Batch) (w : World) :
  train_loop args batch_idx (b :: rest) w =
  let loss :=
    nll_loss (map (forward (parameters w)) (data b)) (target b) Mean in
  let w1 := after_first_step b w in
  if log_interval args =? 0 then (inl ZeroDivisionError, w1)
  else if Z.of_nat batch_idx mod log_interval args =? 0 then
    match (log [("loss", loss)] "train" ;;
           modify (fun w => set_global_step (global_step w + 1) w)) w1 with
    | (inr _, w2) => train_loop args (S batch_idx) rest w2
    | (inl e, w2) => (inl e, w2)
    end
  else train_loop args (S batch_idx) rest w1.
Proof.
  rewrite train_loop_cons.
  erewrite bind_ok by reflexivity. cbv zeta.
  erewrite bind_ok by reflexivity.
  fold (after_first_step b w).
  destruct (Z.eqb_spec (log_interval args) 0) as [H0|Hnz].
  - erewrite bind_raise; [reflexivity|]. unfold rem. now rewrite H0.
  - erewrite bind_ok by (apply rem_ok; exact Hnz).
    destruct (Z.of_nat batch_idx mod log_interval args =? 0).
    + unfold bind at 1. reflexivity.
    + erewrite bind_ok by reflexivity. reflexivity.
Qed.

(** Only the multiples of the interval matter, not its sign. *)
Lemma train_loop_opp (args args' : Namespace) :
  log_interval args' = - log_interval args ->
  forall bs batch_idx w,
    train_loop args' batch_idx bs w = train_loop args batch_idx bs w.
Proof.
  intros Hopp. induction bs as [|b rest IH]; intros batch_idx w;
    [reflexivity|].
  rewrite !train_loop_step. cbv zeta.
  rewrite Hopp, divides_opp.
  replace (- log_interval args =? 0) with (log_interval args =? 0)
    by (destruct (Z.eqb_spec (log_interval args) 0),
          (Z.eqb_spec (- log_interval args) 0); lia || reflexivity).
  destruct (log_interval args =? 0); [reflexivity|].
  destruct (Z.of_nat batch_idx mod log_interval args =? 0); [|apply IH].
  match goal with
  | |- match ?m with _ => _ end = _ =>
      destruct m as [[e|u] w2]; [reflexivity | apply IH]
  end.
Qed.

(** A pass with an open writer and any non-zero interval ends normally. *)
Lemma train_loop_ok (args : Namespace) (bs : list Batch) (batch_idx : nat)
  (w : World) (cs : list Scalar) :
  log_interval args <> 0 ->
  log_writer w = Some cs ->
  fst (train_loop args batch_idx bs w) = inr tt.
Proof.
  intros Hnz Hw.
  destruct (Z.lt_total 0 (log_interval args)) as [Hpos|[H0|Hneg]];
    [|congruence|].
  - now rewrite (train_loop_run args bs batch_idx w cs Hpos Hw).
  - rewrite (train_loop_opp
               (with_log_interval (- log_interval args) args) args)
      by (cbn; lia).
    rewrite (train_loop_run _ bs batch_idx w cs); [reflexivity| |exact Hw].
    cbn. lia.
Qed.

(** X7.  [log] gives the writer one [add_scalar] call per item of the
    dict, in the order of the items, tagged [mode/key], all at the current
    step, and changes nothing else of the store; with an empty dict it
    does nothing, also without a writer; with items and no writer it
    raises [AttributeError] and changes nothing. *)
Theorem log_calls_and_errors (scalars : list (string * num)) (mode : string) (w : World) :
  log scalars mode w =
  match scalars, log_writer w with
  | [], _ => (inr tt, w)
  | _ :: _, None => (inl AttributeError, w)
  | _ :: _, Some cs =>
      (inr tt,
       set_log_writer
         (cs ++ map (fun kv => {| tag := mode ++ "/" ++ fst kv;
                                  value := snd kv;
                                  step := global_step w |}) scalars)%list w)
  end.
Proof.
  destruct scalars as [|[k v] rest]; [reflexivity|].
  destruct (log_writer w) as [cs|] eqn:Hw.
  - now apply log_open.
  - now apply log_closed.
Qed.

Lemma logged_length (interval : Z) (losses : list num) :
  0 < interval ->
  List.length (logged interval 0 losses) =
  ceil_div (List.length losses) (Z.to_nat interval).
Proof.
  intros Hpos. rewrite <- (numbered_length 0).
  rewrite (numbered_logged interval 0 (of_Q 0) losses Hpos).
  now rewrite length_map, length_seq.
Qed.

Lemma numbered_not_accuracy (losses : list num) : forall g,
  filter is_accuracy (numbered g losses) = [].
Proof.
  induction losses as [|l rest IH]; intros g; [reflexivity|].
  cbn [numbered filter]. unfold is_accuracy at 1. cbn. apply IH.
Qed.

(** A pass that ends normally, in one piece. *)
Lemma train_run (args : Namespace) (loader : DataLoader) (epoch : Z)
  (w : World) (cs : list Scalar) :
  log_writer w = Some cs ->
  0 < log_interval args ->
  exists (w1 : World) (ls : list num),
    train args loader epoch w = (inr tt, w1) /\
    List.length ls =
      ceil_div (List.length (batches loader))
        (Z.to_nat (log_interval args)) /\
    log_writer w1 = Some (cs ++ numbered (global_step w) ls)%list /\
    global_step w1 = global_step w + Z.of_nat (List.length ls) /\
    parameters w1 =
      fst (trained (parameters w) (optimizer w) (batches loader)) /\
    optimizer w1 =
      snd (trained (parameters w) (optimizer w) (batches loader)) /\
    training w1 = true.
Proof.
  intros Hw Hpos. unfold train. erewrite bind_ok by reflexivity.
  rewrite (train_loop_run args _ 0 (set_training true w) cs Hpos Hw).
  eexists. eexists. split; [reflexivity|].
  cbn [log_writer global_step parameters optimizer training set_training].
  repeat split.
  now rewrite logged_length, batch_losses_length.
Qed.

(** An evaluation that ends normally, in one piece. *)
Lemma test_run (args : Namespace) (loader : DataLoader) (w : World)
  (cs : list Scalar) :
  log_writer w = Some cs ->
  dataset_len loader <> 0 ->
  exists l a : Scalar,
    test args loader w =
      (inr tt, set_log_writer (cs ++ [l; a])%list (set_training false w)) /\
    tag l = "test/loss" /\ tag a = "test/accuracy" /\
    step l = global_step w /\ step a = global_step w /\
    value a =
      of_Q (inject_Z (correct_count (parameters w) (batches loader)) /
            inject_Z (dataset_len loader)).
Proof.
  intros Hw Hlen. rewrite test_unfold. cbv zeta.
  destruct (Z.eqb_spec (dataset_len loader) 0) as [H0|_]; [contradiction|].
  rewrite fold_test_batch. cbn [fst snd].
  rewrite (log_open _ _ (set_training false w) cs Hw).
  eexists. eexists. split; [reflexivity|]. repeat split.
Qed.

Lemma epoch_loop_run (args : Namespace)
  (train_loader test_loader : Z -> DataLoader) (n : nat) :
  0 < log_interval args ->
  (forall e, List.length (batches (train_loader e)) = n) ->
  (forall e, dataset_len (test_loader e) <> 0) ->
  forall remaining epoch w cs,
    log_writer w = Some cs ->
    let c := ceil_div n (Z.to_nat (log_interval args)) in
    exists (w' : World) (new : list Scalar),
      epoch_loop args train_loader test_loader epoch remaining w =
        (inr tt, w') /\
      log_writer w' = Some (cs ++ new)%list /\
      global_step w' = global_step w + Z.of_nat (remaining * c) /\
      List.length new = (remaining * (c + 2))%nat /\
      map step (filter is_accuracy new) =
        map (fun k => global_step w + Z.of_nat (k * c)) (seq 1 remaining).
Proof.
  intros Hpos Hn Hlen.
  induction remaining as [|k IH]; intros epoch w cs Hw c.
  - exists w, []. cbn. rewrite app_nil_r, Z.add_0_r. repeat split.
    exact Hw.
  - cbn [epoch_loop].
    destruct (train_run args (train_loader epoch) epoch w cs Hw Hpos)
      as (w1 & ls & Htrain & Hls & Hw1 & Hg1 & _).
    rewrite Hn in Hls. fold c in Hls.
    erewrite bind_ok by exact Htrain.
    destruct (test_run args (test_loader epoch) w1 _ Hw1 (Hlen epoch))
      as (l & a & Htest & Hl & Ha & Hsl & Hsa & _).
    erewrite bind_ok by exact Htest.
    set (w2 := set_log_writer _ (set_training false w1)).
    destruct (IH (epoch + 1) w2 _ eq_refl)
      as (w' & new' & Hrun & Hw' & Hg' & Hlen' & Hacc').
    fold c in Hg', Hlen', Hacc'.
    exists w', (numbered (global_step w) ls ++ [l; a] ++ new')%list.
    split; [exact Hrun|]. split; [|split; [|split]].
    + rewrite Hw'. f_equal. now rewrite <- !app_assoc.
    + rewrite Hg'. subst w2. cbn [global_step set_log_writer set_training].
      rewrite Hg1, Hls. cbn [Nat.mul]. rewrite Nat2Z.inj_add. lia.
    + rewrite !length_app, numbered_length, Hls, Hlen'.
      cbn [List.length Nat.mul]. lia.
    + assert (Hfl : is_accuracy l = false)
        by (unfold is_accuracy; now rewrite Hl).
      assert (Hfa : is_accuracy a = true)
        by (unfold is_accuracy; now rewrite Ha).
      rewrite !filter_app, numbered_not_accuracy.
      cbn [filter]. rewrite Hfl, Hfa. cbn [app map seq].
      rewrite Hacc', Hsa, Hg1, Hls. f_equal.
      * f_equal. lia.
      * rewrite <- (seq_shift k 1), map_map. apply map_ext. intros j.
        subst w2. cbn [global_step set_log_writer set_training].
        rewrite Hg1, Hls. cbn [Nat.mul]. rewrite Nat2Z.inj_add. lia.
Qed.

(* --------------------------------------------------------------------- *)
(** *** Further theorems on the loops                                     *)
(* --------------------------------------------------------------------- *)

(** X8.  How [train] ends: normally over an empty loader, whatever the
    interval and the writer; otherwise with [ZeroDivisionError] when
    [log_interval] is 0, else with [AttributeError] when the writer was
    never opened (batch 0 is always logged), else normally, also for a
    negative interval. *)
Theorem train_outcome
  (args : Namespace) (train_loader : DataLoader) (epoch : Z) (w : World) :
  fst (train args train_loader epoch w) =
  match batches train_loader with
  | [] => inr tt
  | _ :: _ =>
      if log_interval args =? 0 then inl ZeroDivisionError
      else match log_writer w with
           | None => inl AttributeError
           | Some _ => inr tt
           end
  end.
Proof.
  unfold train. erewrite bind_ok by reflexivity.
  destruct (batches train_loader) as [|b rest]; [reflexivity|].
  destruct (Z.eqb_spec (log_interval args) 0) as [H0|Hnz].
  - now rewrite train_loop_zero_interval.
  - destruct (log_writer w) as [cs|] eqn:Hw.
    + now apply (train_loop_ok args _ 0 (set_training true w) cs).
    + now rewrite train_loop_closed_writer.
Qed.

(** X9.  When [train] fails over a non-empty loader (interval 0, or
    writer not opened), it has already applied the optimiser step of the
    first batch, and only that one: the model is in training mode with
    the parameters after one step, nothing was logged and the step
    counter has not moved. *)
Theorem train_failure_store
  (args : Namespace) (train_loader : DataLoader) (epoch : Z) (w : World)
  (b : Batch) (rest : list Batch) :
  batches train_loader = b :: rest ->
  log_interval args = 0 \/ log_writer w = None ->
  let w' := snd (train args train_loader epoch w) in
  w' = after_first_step b (set_training true w) /\
  parameters w' =
    fst (sgd_step (parameters w) (optimizer w) (data b) (target b)) /\
  training w' = true /\
  global_step w' = global_step w /\
  log_writer w' = log_writer w.
Proof.
  intros Hb Hfail w'.
  assert (Hw' : w' = after_first_step b (set_training true w)).
  { subst w'. unfold train. erewrite bind_ok by reflexivity. rewrite Hb.
    destruct (Z.eq_dec (log_interval args) 0) as [H0|Hnz].
    - now rewrite train_loop_zero_interval.
    - destruct Hfail as [H0|Hw]; [contradiction|].
      now rewrite train_loop_closed_writer. }
  rewrite Hw'. repeat split.
Qed.

(** X10.  [train] reads [log_interval] only through
    [batch_idx % log_interval == 0]: an interval and its opposite give the
    same run, in outcome and in store. *)
Theorem train_ignores_interval_sign
  (args args' : Namespace) (train_loader : DataLoader) (epoch : Z)
  (w : World) :
  log_interval args' = - log_interval args ->
  train args' train_loader epoch w = train args train_loader epoch w.
Proof.
  intros Hopp. unfold train. erewrite !bind_ok by reflexivity.
  now apply train_loop_opp.
Qed.

(** X11.  After a pass that is logged (writer open, positive interval)
    the model is in training mode, its parameters and the optimiser's
    buffers are those that the optimiser steps of all the batches, in
    order, leave, whatever the interval; the step counter has advanced by
    [ceil (n / log_interval)]. *)
Theorem train_final_store
  (args : Namespace) (train_loader : DataLoader) (epoch : Z) (w : World)
  (cs : list Scalar) :
  log_writer w = Some cs ->
  0 < log_interval args ->
  let w' := snd (train args train_loader epoch w) in
  let po := trained (parameters w) (optimizer w) (batches train_loader) in
  parameters w' = fst po /\
  optimizer w' = snd po /\
  training w' = true /\
  global_step w' =
    global_step w +
    Z.of_nat (ceil_div (List.length (batches train_loader))
                (Z.to_nat (log_interval args))).
Proof.
  intros Hw Hpos w' po.
  destruct (train_run args train_loader epoch w cs Hw Hpos)
    as (w1 & ls & Htrain & Hls & _ & Hg & Hp & Ho & Ht).
  subst w'. rewrite Htrain. cbn [snd]. rewrite <- Hls.
  repeat split; assumption.
Qed.

(** X12.  How [test] ends: with [ZeroDivisionError] over an empty dataset
    (the division by [len(test_loader.dataset)]), else with
    [AttributeError] when the writer was never opened, else normally.
    When it fails it has logged nothing, and leaves the model in
    evaluation mode. *)
Theorem test_outcome
  (args : Namespace) (test_loader : DataLoader) (w : World) :
  fst (test args test_loader w) =
    (if dataset_len test_loader =? 0 then inl ZeroDivisionError
     else match log_writer w with
          | None => inl AttributeError
          | Some _ => inr tt
          end) /\
  (fst (test args test_loader w) <> inr tt ->
   snd (test args test_loader w) = set_training false w).
Proof.
  rewrite test_unfold. cbv zeta.
  destruct (dataset_len test_loader =? 0); [split; reflexivity|].
  destruct (log_writer w) as [cs|] eqn:Hw.
  - rewrite (log_open _ _ (set_training false w) cs Hw).
    split; [reflexivity | intros H; now contradiction H].
  - rewrite (log_closed _ _ _ _ (set_training false w) Hw).
    split; reflexivity.
Qed.

(** X13.  The accuracy [test] logs does not depend on how the samples are
    cut into batches: two loaders over the same samples in the same order
    end the same way and log the same accuracy. *)
Theorem test_accuracy_ignores_batching
  (args : Namespace) (loader1 loader2 : DataLoader) (w : World) :
  List.concat (batches loader1) = List.concat (batches loader2) ->
  dataset_len loader1 = dataset_len loader2 ->
  fst (test args loader1 w) = fst (test args loader2 w) /\
  filter is_accuracy (calls (snd (test args loader1 w))) =
  filter is_accuracy (calls (snd (test args loader2 w))).
Proof.
  intros Hsame Hlen.
  destruct (Z.eq_dec (dataset_len loader1) 0) as [H0|Hnz].
  - rewrite !test_unfold. cbv zeta. rewrite <- Hlen, H0. split; reflexivity.
  - destruct (log_writer w) as [cs|] eqn:Hw.
    + destruct (test_run args loader1 w cs Hw Hnz)
        as (l1 & a1 & Ht1 & Hl1 & Ha1 & _ & Hs1 & Hv1).
      destruct (test_run args loader2 w cs Hw ltac:(congruence))
        as (l2 & a2 & Ht2 & Hl2 & Ha2 & _ & Hs2 & Hv2).
      rewrite Ht1, Ht2. split; [reflexivity|].
      unfold calls. cbn [snd log_writer set_log_writer].
      rewrite !filter_app. f_equal. cbn [filter].
      unfold is_accuracy. rewrite Hl1, Hl2, Ha1, Ha2. cbn.
      f_equal. destruct a1 as [t1 v1 s1], a2 as [t2 v2 s2].
      cbn in *. subst. f_equal. unfold correct_count.
      now rewrite Hsame, Hlen.
    + rewrite !test_unfold. cbv zeta. rewrite <- Hlen.
      destruct (dataset_len loader1 =? 0); [split; reflexivity|].
      rewrite !(log_closed _ _ _ _ (set_training false w) Hw).
      split; reflexivity.
Qed.




(** X15.  The epoch loop, when every training pass yields [n] batches,
    no test dataset is empty, the writer is open and the interval is
    positive: it ends normally; with [c = ceil (n / log_interval)] and
    [E] epochs the step counter has advanced by [E * c], the writer has
    received [E * (c + 2)] calls, and the accuracy of epoch [k] stands at
    step [k * c] past the start. *)
Theorem main_loop_steps
  (args : Namespace) (train_loader test_loader : Z -> DataLoader)
  (n : nat) (w : World) (cs : list Scalar) :
  log_writer w = Some cs ->
  0 < log_interval args ->
  (forall e, List.length (batches (train_loader e)) = n) ->
  (forall e, dataset_len (test_loader e) <> 0) ->
  let c := ceil_div n (Z.to_nat (log_interval args)) in
  let E := Z.to_nat (epochs args) in
  let w' := snd (main_loop args train_loader test_loader w) in
  fst (main_loop args train_loader test_loader w) = inr tt /\
  global_step w' = global_step w + Z.of_nat (E * c) /\
  exists new : list Scalar,
    log_writer w' = Some (cs ++ new)%list /\
    List.length new = (E * (c + 2))%nat /\
    map step (filter is_accuracy new) =
      map (fun k => global_step w + Z.of_nat (k * c)) (seq 1 E).
Proof.
  intros Hw Hpos Hn Hlen c E w'.
  destruct (epoch_loop_run args train_loader test_loader n Hpos Hn Hlen
              E 1 w cs Hw) as (w2 & new & Hrun & Hw2 & Hg & Hl & Hacc).
  subst w'. unfold main_loop. fold E. rewrite Hrun. cbn [fst snd].
  split; [reflexivity|]. split; [exact Hg|].
  exists new. repeat split; assumption.
Qed.

Lemma trained_app (bs1 : list Batch) : forall p o bs2,
  trained p o (bs1 ++ bs2) =
  trained (fst (trained p o bs1)) (snd (trained p o bs1)) bs2.
Proof.
  induction bs1 as [|b rest IH]; intros p o bs2; [reflexivity|].
  cbn [app trained]. apply IH.
Qed.

(** The batches of the passes of [remaining] epochs from [epoch] on. *)
Definition passes (train_loader : Z -> DataLoader) (epoch : Z)
  (remaining : nat) : list Batch :=
  List.concat
    (map (fun k => batches (train_loader (epoch + Z.of_nat k)))
       (seq 0 remaining)).

Lemma passes_succ (train_loader : Z -> DataLoader) (epoch : Z) (k : nat) :
  passes train_loader epoch (S k) =
  (batches (train_loader epoch) ++ passes train_loader (epoch + 1) k)%list.
Proof.
  unfold passes. cbn [seq map List.concat]. rewrite Z.add_0_r. f_equal.
  rewrite <- (seq_shift k 0), map_map. f_equal. apply map_ext. intros j.
  do 2 f_equal. lia.
Qed.

Lemma epoch_loop_model (args : Namespace)
  (train_loader test_loader : Z -> DataLoader) :
  0 < log_interval args ->
  (forall e, dataset_len (test_loader e) <> 0) ->
  forall remaining epoch w cs,
    log_writer w = Some cs ->
    exists (w' : World) (cs' : list Scalar),
      epoch_loop args train_loader test_loader epoch remaining w =
        (inr tt, w') /\
      log_writer w' = Some cs' /\
      (parameters w', optimizer w') =
        trained (parameters w) (optimizer w)
          (passes train_loader epoch remaining).
Proof.
  intros Hpos Hlen.
  induction remaining as [|k IH]; intros epoch w cs Hw.
  - exists w, cs. repeat split. exact Hw.
  - cbn [epoch_loop].
    destruct (train_run args (train_loader epoch) epoch w cs Hw Hpos)
      as (w1 & ls & Htrain & _ & Hw1 & _ & Hp1 & Ho1 & _).
    erewrite bind_ok by exact Htrain.
    destruct (test_run args (test_loader epoch) w1 _ Hw1 (Hlen epoch))
      as (l & a & Htest & _).
    erewrite bind_ok by exact Htest.
    set (w2 := set_log_writer _ (set_training false w1)).
    destruct (IH (epoch + 1) w2 _ eq_refl) as (w' & cs' & Hrun & Hw' & Hm).
    exists w', cs'. split; [exact Hrun|]. split; [exact Hw'|].
    rewrite Hm, passes_succ, trained_app.
    subst w2. cbn [parameters optimizer set_log_writer set_training].
    now rewrite Hp1, Ho1.
Qed.

(** X18.  The evaluations between the passes do not disturb the
    training: with the writer open, a positive interval and no empty test
    dataset, the epoch loop ends normally and leaves the parameters and
    the optimiser's buffers that one pass over the batches of all the
    epochs, in order, would leave. *)
Theorem main_loop_trains_as_one_pass
  (args : Namespace) (train_loader test_loader : Z -> DataLoader)
  (w : World) (cs : list Scalar) :
  log_writer w = Some cs ->
  0 < log_interval args ->
  (forall e, dataset_len (test_loader e) <> 0) ->
  let w' := snd (main_loop args train_loader test_loader w) in
  fst (main_loop args train_loader test_loader w) = inr tt /\
  (parameters w', optimizer w') =
    trained (parameters w) (optimizer w)
      (passes train_loader 1 (Z.to_nat (epochs args))).
Proof.
  intros Hw Hpos Hlen w'.
  destruct (epoch_loop_model args train_loader test_loader Hpos Hlen
              (Z.to_nat (epochs args)) 1 w cs Hw)
    as (w2 & cs' & Hrun & _ & Hm).
  subst w'. unfold main_loop. rewrite Hrun. split; [reflexivity|exact Hm].
Qed.

End Loop.

Arguments tag {num} _.
Arguments value {num} _.
Arguments step {num} _.
Arguments parameters {num Params OptState} _.
Arguments training {num Params OptState} _.
Arguments optimizer {num Params OptState} _.
Arguments global_step {num Params OptState} _.
Arguments log_writer {num Params OptState} _.
Arguments calls {num Params OptState} _.
Arguments train_records {num Params OptState} _.
Arguments dataset_len {Input} _.
Arguments batches {Input} _.

(* ===================================================================== *)
(** ** Facts on floats and strings                                        *)
(* ===================================================================== *)

Lemma append_nil_r (s : string) : s ++ "" = s.
Proof. induction s as [|c s IH]; cbn; [reflexivity | now rewrite IH]. Qed.

Lemma append_assoc (s t u : string) : (s ++ t) ++ u = s ++ t ++ u.
Proof. induction s as [|c s IH]; cbn; [reflexivity | now rewrite IH]. Qed.

Lemma SFcompare_antisym (a b : spec_float) :
  SFcompare b a =
  match SFcompare a b with Some c => Some (CompOpp c) | None => None end.
Proof.
  destruct a as [s1|s1| |s1 m1 e1], b as [s2|s2| |s2 m2 e2]; cbn;
    try reflexivity; try (destruct s1; reflexivity);
    try (destruct s2; reflexivity);
    try (destruct s1, s2; reflexivity).
  change (PosDef.Pos.compare_cont Eq m2 m1) with (Pos.compare m2 m1).
  change (PosDef.Pos.compare_cont Eq m1 m2) with (Pos.compare m1 m2).
  rewrite (Z.compare_antisym e1 e2), (Pos.compare_antisym m1 m2).
  destruct s1, s2, (e1 ?= e2), (Pos.compare m1 m2); reflexivity.
Qed.

(** A float that is at most [y] is not above [y] ([nan] is neither). *)
Lemma leb_not_gt (x y : float) :
  PrimFloat.leb x y = true -> PrimFloat.ltb y x = false.
Proof.
  rewrite leb_spec, ltb_spec. unfold SFleb, SFltb.
  rewrite (SFcompare_antisym (Prim2SF x) (Prim2SF y)).
  destruct (SFcompare (Prim2SF x) (Prim2SF y)) as [[ | | ]|];
    cbn; congruence.
Qed.

Lemma disabled_not_gt (p : float) :
  disabled (Some p) = true -> PrimFloat.ltb 1e-4 p = false.
Proof. apply leb_not_gt. Qed.

Lemma format_f_two_decimals (p : float) :
  is_finite p = true -> two_decimals (format_f 2 p).
Proof.
  unfold is_finite, format_f, two_decimals.
  destruct (Prim2SF p) as [s|s| |s m e]; try discriminate; intros _.
  - exists s, 0%N, 0%N, 0%N. repeat split.
  - set (n := scaled 2 m e). unfold fixed.
    change (10 ^ N.of_nat 2)%N with 100%N.
    exists s, (n / 100)%N, ((n mod 100 / 10) mod 10)%N,
      ((n mod 100) mod 10)%N.
    repeat split; try (apply N.mod_lt; discriminate).
Qed.

(* ===================================================================== *)
(** ** Theorems on the pipeline and the run name                          *)
(* ===================================================================== *)

Ltac run_create_data_aug :=
  unfold create_data_aug, bind, gt, ret, print, modify, raise;
  cbn -[PrimFloat.ltb format_f].

(** X1.  What [create_data_aug] includes when it returns: the drop, flip-LR and
    refractory steps each exactly when training, present and above
    [1e-4]; the flip-UD step exactly when training, present and the
    flip-LR value is above [1e-4]; the jitter step never. *)
Lemma create_data_aug_included
  (args : Namespace) (train : bool) (out out' : Stdout)
  (steps : list Transform) :
  create_data_aug args train out = (inr (Compose steps), out') ->
  forall p : float,
    (In (DropEvent p) steps <->
     train = true /\ drop_probability args = Some p /\
     PrimFloat.ltb 1e-4 p = true) /\
    (In (FlipLR p) steps <->
     train = true /\ flip_lr_probability args = Some p /\
     PrimFloat.ltb 1e-4 p = true) /\
    (In (RefractoryPeriod p) steps <->
     train = true /\ refractory_period args = Some p /\
     PrimFloat.ltb 1e-4 p = true) /\
    (In (FlipUD p) steps <->
     train = true /\ flip_ud_probability args = Some p /\
     exists q, flip_lr_probability args = Some q /\
               PrimFloat.ltb 1e-4 q = true) /\
    ~ In (TimeJitter p) steps.
Proof.
  destruct args as [dp flr fud rp tj e li]; cbn [drop_probability
    flip_lr_probability flip_ud_probability refractory_period time_jitter].
  destruct train, dp as [a|], flr as [b|], fud as [c|], rp as [d|],
    tj as [f|]; run_create_data_aug;
    repeat match goal with
    | |- context [if PrimFloat.ltb 1e-4 ?x then _ else _] =>
        destruct (PrimFloat.ltb 1e-4 x) eqn:?
    end;
    cbn -[PrimFloat.ltb format_f]; intros H; inversion H; subst; clear H;
    intros p; cbn [In];
    repeat split; intros; firstorder (try congruence).
Qed.

(** Without training no guard fires, whatever the options hold. *)
Lemma create_data_aug_not_training (args : Namespace) (out : Stdout) :
  create_data_aug args false out =
  (inr two_step, (out ++ ["- Volume"; "- NumpyAsType"])%list).
Proof.
  destruct args as [[a|] [b|] [c|] [d|] [f|] e li]; run_create_data_aug;
    now rewrite <- app_assoc.
Qed.

(** C1, at the inputs where the code departs from it.  Training with
    flip-UD at 0.5 and flip-LR at 0: the flip-UD value is present and
    above [1e-4], and the step is left out.  Training with flip-UD at 0
    and flip-LR at 0.5: the flip-UD value is not above [1e-4], and the
    step is included.  Training with a time jitter of 0.5: no pipeline
    is returned, [NameError] is raised. *)
Theorem create_data_aug_flip_ud_and_jitter_guards :
  PrimFloat.ltb 1e-4 0.5 = true /\
  PrimFloat.ltb 1e-4 0 = false /\
  create_data_aug (options None (Some 0%float) (Some 0.5%float) None None)
    true [] =
    (inr (Compose [Volume true; NumpyAsType float32]),
     ["- Volume"; "- NumpyAsType"]) /\
  create_data_aug (options None (Some 0.5%float) (Some 0%float) None None)
    true [] =
    (inr (Compose [FlipLR 0.5; FlipUD 0; Volume true; NumpyAsType float32]),
     ["- FlipLR : 0.500000"; "- FlipUD : 0.000000"; "- Volume";
      "- NumpyAsType"]) /\
  create_data_aug (options None None None None (Some 0.5%float)) true [] =
    (inl NameError, []).
Proof. repeat split. Qed.

(** C2, at inputs where the code raises.  Training with a time jitter
    above [1e-4] raises [NameError], after the lines of the earlier steps
    were printed; training with flip-UD set and flip-LR unset raises
    [TypeError]. *)
Theorem create_data_aug_raises :
  create_data_aug
    (options (Some 0.3%float) None None None (Some 0.5%float)) true [] =
    (inl NameError, ["- DropEvent : 0.300000"]) /\
  create_data_aug (options None None (Some 0.5%float) None None) true [] =
    (inl TypeError, []).
Proof. split; reflexivity. Qed.

(** C3.  For every configuration, [create_data_aug(args, train=False)]
    returns normally the pipeline of the binning step followed by the
    dtype cast, and nothing else; it prints their two lines. *)
Theorem create_data_aug_eval_is_two_step (args : Namespace) (out : Stdout) :
  create_data_aug args false out =
  (inr (Compose [Volume true; NumpyAsType float32]),
   (out ++ ["- Volume"; "- NumpyAsType"])%list).
Proof. exact (create_data_aug_not_training args out). Qed.

(** The name is the concatenation of the segments of the options that
    are present, in the fixed order. *)
Lemma create_data_aug_name_concat (args : Namespace) :
  create_data_aug_name args =
  String.concat "" (map segment (present_options args)).
Proof.
  destruct args as [[a|] [b|] [c|] [d|] [f|] e li];
    unfold create_data_aug_name, present_options, segment;
    cbn -[format_f];
    repeat (rewrite ?append_assoc; cbn -[format_f]);
    rewrite ?append_nil_r; reflexivity.
Qed.

(** C10.  Training with flip-UD set and flip-LR unset: whatever the other
    options and whatever was printed before, [create_data_aug] raises
    [TypeError] (the guard of the flip-UD step compares the flip-LR
    value, [None], with [1e-4]) and returns no pipeline. *)
Theorem create_data_aug_flip_ud_without_flip_lr
  (args : Namespace) (out : Stdout) (p : float) :
  flip_ud_probability args = Some p ->
  flip_lr_probability args = None ->
  fst (create_data_aug args true out) = inl TypeError.
Proof.
  destruct args as [[a|] flr fud rp tj e li]; cbn [flip_ud_probability
    flip_lr_probability]; intros -> ->; run_create_data_aug;
    try destruct (PrimFloat.ltb 1e-4 a); reflexivity.
Qed.

Lemma create_data_aug_flip_ud_without_flip_lr_witness :
  fst (create_data_aug
         (options (Some 0.3%float) None (Some 0.5%float) None None)
         true []) = inl TypeError.
Proof.
  apply (create_data_aug_flip_ud_without_flip_lr _ _ 0.5%float);
    reflexivity.
Defined.

(** C5 as stated fails: with a drop probability of 0, every option is
    unset or at most [1e-4], and the name is "_dp_0.00". *)
Lemma disabled_options_name_counterexample :
  ~ (forall args : Namespace,
       all_disabled args = true ->
       fst (create_data_aug args true []) = inr two_step /\
       fst (create_data_aug args false []) = inr two_step /\
       create_data_aug_name args = "").
Proof.
  intros H.
  destruct (H (options (Some 0%float) None None None None) eq_refl)
    as (_ & _ & Hname).
  discriminate Hname.
Qed.

(** C5, amended.  When every option is unset or at most [1e-4], and
    flip-LR is set whenever flip-UD is, [create_data_aug] returns the same
    two-step pipeline (binning, dtype cast) with and without training; the
    name is empty exactly when all five options are unset. *)
Theorem disabled_options_two_step (args : Namespace) (out : Stdout) :
  all_disabled args = true ->
  (flip_ud_probability args <> None -> flip_lr_probability args <> None) ->
  create_data_aug args true out =
    (inr two_step, (out ++ ["- Volume"; "- NumpyAsType"])%list) /\
  create_data_aug args false out =
    (inr two_step, (out ++ ["- Volume"; "- NumpyAsType"])%list) /\
  (create_data_aug_name args = "" <-> all_unset args).
Proof.
  intros Hall Hflr.
  split; [|split; [apply create_data_aug_not_training|]].
  - unfold all_disabled in Hall.
    repeat (apply andb_prop in Hall; destruct Hall as [Hall ?]).
    destruct args as [dp flr fud rp tj e li];
      cbn [drop_probability flip_lr_probability flip_ud_probability
           refractory_period time_jitter] in *.
    destruct dp as [a|], flr as [b|], fud as [c|], rp as [d|], tj as [f|];
      try (exfalso; apply Hflr; [discriminate | reflexivity]);
      run_create_data_aug;
      rewrite ?disabled_not_gt by assumption;
      cbn -[PrimFloat.ltb format_f];
      now rewrite <- app_assoc.
  - unfold all_unset.
    destruct args as [[a|] [b|] [c|] [d|] [f|] e li];
      unfold create_data_aug_name;
      cbn -[format_f];
      (split; [intros Hn; try discriminate Hn; repeat split
              | intros (H1 & H2 & H3 & H4 & H5);
                try discriminate; reflexivity]).
Qed.

Lemma disabled_options_two_step_witness :
  create_data_aug
    (options (Some 0%float) (Some 1e-4%float) (Some 0%float) None None)
    true [] =
  (inr two_step, ["- Volume"; "- NumpyAsType"]).
Proof.
  apply (disabled_options_two_step
           (options (Some 0%float) (Some 1e-4%float) (Some 0%float)
              None None) []).
  - reflexivity.
  - intros _. discriminate.
Defined.

(* ===================================================================== *)
(** ** Further theorems on the pipeline and the run name                  *)
(* ===================================================================== *)

(** The place of a step in the pipeline. *)
Definition rank (t : Transform) : nat :=
  match t with
  | DropEvent _ => 0
  | FlipLR _ => 1
  | FlipUD _ => 2
  | RefractoryPeriod _ => 3
  | TimeJitter _ => 4
  | Volume _ => 5
  | NumpyAsType _ => 6
  end.

Fixpoint increasing (l : list nat) : bool :=
  match l with
  | a :: (b :: _) as rest => (a <? b)%nat && increasing rest
  | _ => true
  end.

(** The line [create_data_aug] prints for a step. *)
Definition line (t : Transform) : string :=
  match t with
  | DropEvent p => "- DropEvent : " ++ format_f 6 p
  | FlipLR p => "- FlipLR : " ++ format_f 6 p
  | FlipUD p => "- FlipUD : " ++ format_f 6 p
  | RefractoryPeriod p => "- RefractoryPeriod : " ++ format_f 6 p
  | TimeJitter p => "- TimeJitter : " ++ format_f 6 p
  | Volume _ => "- Volume"
  | NumpyAsType _ => "- NumpyAsType"
  end.

Ltac cases_create_data_aug args train :=
  destruct args as [[?a|] [?b|] [?c|] [?d|] [?f|] ?e ?li], train;
  cbn [drop_probability flip_lr_probability flip_ud_probability
       refractory_period time_jitter];
  run_create_data_aug;
  repeat match goal with
  | |- context [if PrimFloat.ltb 1e-4 ?x then _ else _] =>
      destruct (PrimFloat.ltb 1e-4 x) eqn:?
  end;
  cbn -[PrimFloat.ltb format_f].

(** X2.  [create_data_aug] raises exactly in two situations, both in
    training: [TypeError] when flip-UD is set and flip-LR is not;
    otherwise [NameError] when the time jitter is set and above [1e-4].
    In every other case it returns a pipeline. *)
Theorem create_data_aug_outcome
  (args : Namespace) (train : bool) (out : Stdout) :
  let r := fst (create_data_aug args train out) in
  (r = inl TypeError <->
   train = true /\ flip_ud_probability args <> None /\
   flip_lr_probability args = None) /\
  (r = inl NameError <->
   train = true /\
   (flip_ud_probability args <> None -> flip_lr_probability args <> None) /\
   exists t, time_jitter args = Some t /\ PrimFloat.ltb 1e-4 t = true) /\
  (r <> inl TypeError -> r <> inl NameError ->
   exists steps, r = inr (Compose steps)).
Proof.
  cases_create_data_aug args train;
    (split; [|split]);
    try (split; intros H; try discriminate H);
    try (intros; eexists; reflexivity);
    try (intros H1 H2; exfalso; (now apply H1) || (now apply H2));
    try (repeat split; try discriminate; eauto; fail);
    try (destruct H as (H1 & H2 & H3); try discriminate H1;
         try (now contradiction H2); try discriminate H3;
         try (destruct H3 as (t & H3 & H4); congruence);
         try (exfalso; apply H2; [discriminate | reflexivity]); fail).
Qed.

(** X3.  A pipeline that [create_data_aug] returns lists its steps in
    the fixed order drop, flip-LR, flip-UD, refractory, each at most
    once, and always ends with the binning step followed by the dtype
    cast. *)
Theorem create_data_aug_order
  (args : Namespace) (train : bool) (out out' : Stdout)
  (steps : list Transform) :
  create_data_aug args train out = (inr (Compose steps), out') ->
  increasing (map rank steps) = true /\
  steps =
    (firstn (List.length steps - 2) steps ++
     [Volume true; NumpyAsType float32])%list.
Proof.
  cases_create_data_aug args train;
    intros H; inversion H; subst; split; reflexivity.
Qed.

(** X4.  When [create_data_aug] returns, it has printed one line per step
    of the pipeline, in the order of the pipeline, after what was printed
    before. *)
Theorem create_data_aug_prints
  (args : Namespace) (train : bool) (out out' : Stdout)
  (steps : list Transform) :
  create_data_aug args train out = (inr (Compose steps), out') ->
  out' = (out ++ map line steps)%list.
Proof.
  cases_create_data_aug args train;
    intros H; inversion H; subst; cbn -[format_f];
    repeat rewrite <- app_assoc; reflexivity.
Qed.

(** Every optional step of a returned pipeline has its option present,
    with the value the step was built with. *)
Lemma included_steps_are_present
  (args : Namespace) (train : bool) (out out' : Stdout)
  (steps : list Transform) (p : float) :
  create_data_aug args train out = (inr (Compose steps), out') ->
  (In (DropEvent p) steps -> In ("_dp_", p) (present_options args)) /\
  (In (FlipLR p) steps -> In ("_flr_", p) (present_options args)) /\
  (In (FlipUD p) steps -> In ("_fud_", p) (present_options args)) /\
  (In (RefractoryPeriod p) steps ->
   In ("_rp_", p) (present_options args)).
Proof.
  cases_create_data_aug args train;
    intros H; inversion H; subst; clear H;
    unfold present_options; cbn [In app fst snd
      drop_probability flip_lr_probability flip_ud_probability
      refractory_period time_jitter];
    repeat split; intros H;
    repeat match goal with
    | H : _ \/ _ |- _ => destruct H
    | H : False |- _ => contradiction H
    | H : @eq Transform _ _ |- _ =>
        first [discriminate H | injection H as ->]
    end;
    cbn; auto 10.
Qed.

Lemma concat_segments_cons (o : string * float) (l : list (string * float)) :
  String.concat "" (map segment (o :: l)) =
  segment o ++ String.concat "" (map segment l).
Proof.
  destruct l as [|o' l]; cbn [map String.concat];
    [now rewrite append_nil_r | reflexivity].
Qed.

(** The segment of an option that is present stands in the name. *)
Lemma segment_in_name (tag : string) (p : float) (l : list (string * float)) :
  In (tag, p) l ->
  exists pre post : string,
    String.concat "" (map segment l) = pre ++ tag ++ format_f 2 p ++ post.
Proof.
  induction l as [|o l IH]; intros Hin; [contradiction|].
  rewrite concat_segments_cons. destruct Hin as [->|Hin].
  - exists "", (String.concat "" (map segment l)).
    unfold segment. cbn [fst snd append]. now rewrite append_assoc.
  - destruct (IH Hin) as (pre & post & ->).
    exists (segment o ++ pre), post. now rewrite append_assoc.
Qed.

(** X5.  Every optional step of a returned pipeline is named in the run
    name: the string [create_data_aug_name] returns contains the segment
    of that option, its tag followed by the value the step was built
    with under [%0.2f].  (Not the other way round: the name also lists
    the options that are set and not above [1e-4], and those of a test
    pipeline.) *)
Theorem included_steps_are_named
  (args : Namespace) (train : bool) (out out' : Stdout)
  (steps : list Transform) (p : float) :
  create_data_aug args train out = (inr (Compose steps), out') ->
  (In (DropEvent p) steps ->
   exists pre post : string,
     create_data_aug_name args = pre ++ "_dp_" ++ format_f 2 p ++ post) /\
  (In (FlipLR p) steps ->
   exists pre post : string,
     create_data_aug_name args = pre ++ "_flr_" ++ format_f 2 p ++ post) /\
  (In (FlipUD p) steps ->
   exists pre post : string,
     create_data_aug_name args = pre ++ "_fud_" ++ format_f 2 p ++ post) /\
  (In (RefractoryPeriod p) steps ->
   exists pre post : string,
     create_data_aug_name args = pre ++ "_rp_" ++ format_f 2 p ++ post).
Proof.
  intros H.
  destruct (included_steps_are_present args train out out' steps p H)
    as (Hdp & Hflr & Hfud & Hrp).
  rewrite create_data_aug_name_concat.
  repeat split; intros Hin; apply segment_in_name; auto.
Qed.

(** *** Reading the options back from the run name *)

(** [c in s] *)
Fixpoint occurs (c : ascii) (s : string) : bool :=
  match s with
  | "" => false
  | String a rest => Ascii.eqb a c || occurs c rest
  end.

(** [s.split(c)] for a one-character separator. *)
Fixpoint split_on (c : ascii) (s : string) : list string :=
  match s with
  | "" => [""]
  | String a rest =>
      if Ascii.eqb a c then "" :: split_on c rest
      else match split_on c rest with
           | piece :: pieces => String a piece :: pieces
           | [] => [String a ""]
           end
  end.

(** The code of an option inside its tag: ["dp"] in ["_dp_"]. *)
Definition code (tag : string) : string :=
  substring 1 (String.length tag - 2) tag.

(** The pieces of the run name: the code and the formatted value of each
    option that is present. *)
Definition name_pieces (args : Namespace) : list string :=
  List.concat
    (map (fun o => [code (fst o); format_f 2 (snd o)])
       (present_options args)).

Lemma occurs_append (c : ascii) (s t : string) :
  occurs c (s ++ t) = occurs c s || occurs c t.
Proof.
  induction s as [|a s IH]; cbn; [reflexivity|].
  now rewrite IH, orb_assoc.
Qed.

Lemma uint_no_underscore (d : Decimal.uint) :
  occurs "_" (NilEmpty.string_of_uint d) = false.
Proof. induction d; cbn; auto. Qed.

Lemma decimal_no_underscore (n : N) : occurs "_" (decimal n) = false.
Proof.
  unfold decimal, NilZero.string_of_uint.
  destruct (N.to_uint n); try reflexivity; apply uint_no_underscore.
Qed.

Lemma digit_not_underscore (d : N) :
  (d < 10)%N -> Ascii.eqb (digit d) "_" = false.
Proof.
  intros Hd.
  assert (H : (d = 0 \/ d = 1 \/ d = 2 \/ d = 3 \/ d = 4 \/ d = 5 \/
               d = 6 \/ d = 7 \/ d = 8 \/ d = 9)%N) by lia.
  repeat (destruct H as [->|H]; [reflexivity|]). now subst.
Qed.

Lemma low_digits_no_underscore (width : nat) : forall n,
  occurs "_" (low_digits width n) = false.
Proof.
  induction width as [|w IH]; intros n; [reflexivity|].
  cbn [low_digits]. rewrite occurs_append, IH. cbn [occurs orb].
  rewrite digit_not_underscore; [reflexivity|].
  apply N.mod_lt. discriminate.
Qed.

Lemma fixed_no_underscore (prec : nat) (n : N) :
  occurs "_" (fixed prec n) = false.
Proof.
  unfold fixed. rewrite occurs_append, decimal_no_underscore.
  destruct prec; [reflexivity|].
  rewrite occurs_append, low_digits_no_underscore. reflexivity.
Qed.

(** A formatted float holds no underscore. *)
Lemma format_f_no_underscore (prec : nat) (x : float) :
  occurs "_" (format_f prec x) = false.
Proof.
  unfold format_f.
  destruct (Prim2SF x) as [s|s| |s m e]; try reflexivity;
    rewrite occurs_append; destruct s; cbn [sign occurs orb];
    try reflexivity; apply fixed_no_underscore.
Qed.

Lemma split_on_last (c : ascii) (v : string) :
  occurs c v = false -> split_on c v = [v].
Proof.
  induction v as [|a v IH]; [reflexivity|].
  cbn [occurs split_on]. intros H. apply orb_false_elim in H as [Ha Hv].
  now rewrite Ha, IH.
Qed.

Lemma split_on_piece (c : ascii) (v rest : string) :
  occurs c v = false ->
  split_on c (v ++ String c rest) = v :: split_on c rest.
Proof.
  induction v as [|a v IH]; intros H.
  - cbn. now rewrite Ascii.eqb_refl.
  - cbn [occurs] in H. apply orb_false_elim in H as [Ha Hv].
    cbn [append split_on]. now rewrite Ha, IH.
Qed.

(** Splitting the run name at the underscores gives back, after the empty
    piece before the first underscore, the code and the formatted value of
    each present option. *)
Lemma create_data_aug_name_split (args : Namespace) :
  split_on "_" (create_data_aug_name args) = "" :: name_pieces args.
Proof.
  destruct args as [[a|] [b|] [c|] [d|] [f|] e li];
    unfold create_data_aug_name, name_pieces, present_options;
    cbn -[format_f split_on];
    repeat (rewrite ?append_assoc; cbn -[format_f split_on]);
    cbn -[format_f];
    repeat (rewrite split_on_piece by apply format_f_no_underscore;
            cbn -[format_f]);
    rewrite ?split_on_last by apply format_f_no_underscore;
    reflexivity.
Qed.

Lemma pieces_inj (l1 : list (string * float)) : forall l2,
  List.concat (map (fun o => [code (fst o); format_f 2 (snd o)]) l1) =
  List.concat (map (fun o => [code (fst o); format_f 2 (snd o)]) l2) ->
  map (fun o => code (fst o)) l1 = map (fun o => code (fst o)) l2 /\
  map (fun o => format_f 2 (snd o)) l1 =
  map (fun o => format_f 2 (snd o)) l2.
Proof.
  induction l1 as [|o1 l1 IH]; intros [|o2 l2] H; try discriminate H.
  - split; reflexivity.
  - cbn [map List.concat app] in H. injection H as Hc Hf H.
    destruct (IH l2 H) as [IHc IHf].
    cbn [map]. now rewrite Hc, Hf, IHc, IHf.
Qed.

Lemma tag_of_code (args : Namespace) :
  map fst (present_options args) =
  map (fun o => "_" ++ code (fst o) ++ "_") (present_options args).
Proof.
  destruct args as [[a|] [b|] [c|] [d|] [f|] e li]; reflexivity.
Qed.

(** X6.  The run name tells which options were set: two configurations
    with the same name have the same options present, with values that
    print alike under [%0.2f]. *)
Theorem create_data_aug_name_determines_options (args1 args2 : Namespace) :
  create_data_aug_name args1 = create_data_aug_name args2 ->
  map fst (present_options args1) = map fst (present_options args2) /\
  map (fun o => format_f 2 (snd o)) (present_options args1) =
  map (fun o => format_f 2 (snd o)) (present_options args2).
Proof.
  intros H. apply (f_equal (split_on "_")) in H.
  rewrite !create_data_aug_name_split in H. injection H as H.
  apply pieces_inj in H as [Hc Hf]. split; [|exact Hf].
  rewrite !tag_of_code.
  rewrite <- (map_map (fun o => code (fst o)) (fun s => "_" ++ s ++ "_")).
  rewrite Hc. now rewrite map_map.
Qed.

(* --------------------------------------------------------------------- *)
(** *** The values in the run name                                        *)
(* --------------------------------------------------------------------- *)

(** The decimal numeral of a natural number. *)
Definition numeral (n : N) : string := NilZero.string_of_uint (N.to_uint n).

(** The magnitude of the finite float with mantissa [m] and exponent [e]. *)
Definition exact_value (m : positive) (e : Z) : Q :=
  (inject_Z (Zpos m) * 2 ^ e)%Q.

(** [n] is the integer nearest to [q]; of two equally near, the even one. *)
Definition nearest_even (q : Q) (n : N) : Prop :=
  (Qabs (inject_Z (Z.of_N n) - q) <= 1 # 2)%Q /\
  ((Qabs (inject_Z (Z.of_N n) - q) == 1 # 2)%Q -> N.even n = true).

Lemma nearest_even_ratio (num : Z) (den : positive) (n : N) :
  2 * Z.abs (Z.of_N n * Zpos den - num) <= Zpos den ->
  (2 * Z.abs (Z.of_N n * Zpos den - num) = Zpos den -> N.even n = true) ->
  nearest_even (num # den) n.
Proof.
  intros Hle Heven. unfold nearest_even.
  unfold Qabs, Qminus, Qplus, Qopp, inject_Z, Qle, Qeq.
  cbn [Qnum Qden]. split.
  - lia.
  - intros H. apply Heven. lia.
Qed.

Lemma nearest_even_eq (q q' : Q) (n : N) :
  (q == q')%Q -> nearest_even q n -> nearest_even q' n.
Proof.
  intros Hq [Hle Heven]. unfold nearest_even. rewrite <- Hq. now split.
Qed.

Lemma round_half_even_nearest (num den : N) :
  den <> 0%N ->
  let n := round_half_even num den in
  2 * Z.abs (Z.of_N n * Z.of_N den - Z.of_N num) <= Z.of_N den /\
  (2 * Z.abs (Z.of_N n * Z.of_N den - Z.of_N num) = Z.of_N den ->
   N.even n = true).
Proof.
  intros Hden n. subst n. unfold round_half_even.
  pose proof (N.div_mod num den Hden) as Hdm.
  pose proof (N.mod_lt num den Hden) as Hr.
  set (q := (num / den)%N) in *. set (r := (num mod den)%N) in *.
  destruct (N.compare_spec (2 * r) den) as [Heq|Hlt|Hgt].
  - destruct (N.even q) eqn:Hq.
    + split; [nia | intros _; exact Hq].
    + split; [nia|]. intros _.
      rewrite N.add_1_r, N.even_succ, <- N.negb_even, Hq. reflexivity.
  - split; [nia | intros H; exfalso; nia].
  - split; [nia | intros H; exfalso; nia].
Qed.

Lemma exact_value_nonneg_exp (m : positive) (e : Z) :
  0 <= e ->
  (exact_value m e * 100 == (Zpos m * 2 ^ e * 100) # 1)%Q.
Proof.
  intros He. unfold exact_value.
  change (2 ^ e)%Q with (inject_Z 2 ^ e)%Q.
  rewrite <- Zpower_Qpower by exact He.
  unfold Qeq, Qmult, inject_Z. cbn [Qnum Qden]. lia.
Qed.

Lemma exact_value_neg_exp (m k : positive) :
  (exact_value m (Zneg k) * 100 == (Zpos m * 100) # (2 ^ k))%Q.
Proof.
  unfold exact_value.
  change (2 ^ Zneg k)%Q with (/ (inject_Z 2 ^ Zpos k))%Q.
  rewrite <- Zpower_Qpower by lia.
  rewrite <- Pos2Z.inj_pow.
  unfold Qeq, Qmult, Qinv, inject_Z. cbn [Qnum Qden]. lia.
Qed.

Lemma scaled_nearest (m : positive) (e : Z) :
  nearest_even (exact_value m e * 100) (scaled 2 m e).
Proof.
  unfold scaled. change (10 ^ N.of_nat 2)%N with 100%N.
  destruct e as [|k|k].
  - apply (nearest_even_eq ((Zpos m * 2 ^ 0 * 100) # 1)).
    + symmetry. now apply exact_value_nonneg_exp.
    + apply nearest_even_ratio; [lia | intros H; exfalso; lia].
  - apply (nearest_even_eq ((Zpos m * 2 ^ Zpos k * 100) # 1)).
    + symmetry. apply exact_value_nonneg_exp. lia.
    + assert (Hn : Z.of_N (N.pos m * 2 ^ N.pos k * 100) =
                   Zpos m * 2 ^ Zpos k * 100)
        by (rewrite !N2Z.inj_mul, N2Z.inj_pow; reflexivity).
      apply nearest_even_ratio; rewrite Hn; [lia | intros H; exfalso; lia].
  - apply (nearest_even_eq ((Zpos m * 100) # (2 ^ k))).
    + symmetry. apply exact_value_neg_exp.
    + change (2 ^ N.pos k)%N with (N.pos (2 ^ k)).
      pose proof (round_half_even_nearest (N.pos m * 100) (N.pos (2 ^ k))
                    ltac:(discriminate)) as [Hle Heven].
      apply nearest_even_ratio.
      * exact Hle.
      * exact Heven.
Qed.

Lemma digit_numeral (d : N) :
  (d < 10)%N -> String (digit d) "" = numeral d.
Proof.
  intros Hd.
  assert (H : (d = 0 \/ d = 1 \/ d = 2 \/ d = 3 \/ d = 4 \/ d = 5 \/
               d = 6 \/ d = 7 \/ d = 8 \/ d = 9)%N) by lia.
  repeat (destruct H as [->|H]; [reflexivity|]). now subst.
Qed.

Lemma fixed_2 (n : N) :
  fixed 2 n =
  numeral (n / 100) ++ "." ++ numeral ((n / 10) mod 10) ++ numeral (n mod 10).
Proof.
  unfold fixed. change (10 ^ N.of_nat 2)%N with 100%N.
  cbn [low_digits append].
  replace ((n mod 100 / 10) mod 10)%N with ((n / 10) mod 10)%N
    by (zify; Z.to_euclidean_division_equations; lia).
  replace ((n mod 100) mod 10)%N with (n mod 10)%N
    by (zify; Z.to_euclidean_division_equations; lia).
  rewrite <- (digit_numeral ((n / 10) mod 10)), <- (digit_numeral (n mod 10))
    by (apply N.mod_lt; discriminate).
  reflexivity.
Qed.

(** What [%0.2f] prints for [p]: the words for [nan] and the infinities;
    for a finite value the sign, then the decimal with two digits after
    the point that is nearest to the exact magnitude, ties to even. *)
Definition printed_2f (p : float) (s : string) : Prop :=
  match Prim2SF p with
  | S754_nan => s = "nan"
  | S754_infinity neg => s = if neg then "-inf" else "inf"
  | S754_zero neg => s = if neg then "-0.00" else "0.00"
  | S754_finite neg m e =>
      exists n : N,
        nearest_even (exact_value m e * 100) n /\
        s = (if neg : bool then "-" else "") ++
            numeral (n / 100) ++ "." ++
            numeral ((n / 10) mod 10) ++ numeral (n mod 10)
  end.

Lemma format_f_printed (p : float) : printed_2f p (format_f 2 p).
Proof.
  unfold printed_2f, format_f.
  destruct (Prim2SF p) as [s|s| |s m e]; try (destruct s; reflexivity);
    try reflexivity.
  exists (scaled 2 m e). split; [apply scaled_nearest|].
  now rewrite fixed_2.
Qed.

Lemma two_decimals_has_point (s : string) :
  two_decimals s -> occurs "." s = true.
Proof.
  intros (neg & int & d1 & d2 & _ & _ & ->).
  rewrite !occurs_append. cbn [occurs Ascii.eqb Bool.eqb].
  now rewrite !orb_true_r.
Qed.

(** C4 as stated fails: with only the refractory period set, to infinity,
    the name is "_rp_inf", and "inf" is no decimal with two digits after
    the point. *)
Lemma infinite_period_name_counterexample :
  ~ (forall rp : float,
       exists v : string,
         two_decimals v /\
         create_data_aug_name (options None None None (Some rp) None) =
         "_rp_" ++ v).
Proof.
  intros H. destruct (H infinity) as (v & Hv & Hname).
  assert (Hinf : v = "inf") by (injection Hname as <-; reflexivity).
  subst v. apply two_decimals_has_point in Hv. discriminate Hv.
Qed.

(** C4, amended.  [create_data_aug_name] is a function of the
    configuration alone.  It returns the concatenation of one segment per
    option that is present, whatever its magnitude, in the order drop,
    flip-LR, flip-UD, refractory, jitter; a segment is the tag followed by
    the value under [%0.2f]: for a finite value the decimal with exactly
    two digits after the point nearest to it (ties to even), for [nan] and
    the infinities the words nan, inf and -inf.  With only the refractory
    period set the name is the single segment tagged ["_rp_"], "_rp_2.00"
    for a period of 2. *)
Theorem create_data_aug_name_printed (args : Namespace) :
  create_data_aug_name args =
    String.concat "" (map segment (present_options args)) /\
  (forall p : float, printed_2f p (format_f 2 p)) /\
  (forall rp : float,
     create_data_aug_name (options None None None (Some rp) None) =
     "_rp_" ++ format_f 2 rp) /\
  create_data_aug_name (options None None None (Some 2%float) None) =
    "_rp_2.00" /\
  create_data_aug_name
    (options (Some 0.3%float) None None (Some infinity) (Some nan)) =
    "_dp_0.30_rp_inf_tj_nan".
Proof.
  split; [apply create_data_aug_name_concat|].
  split; [exact format_f_printed|].
  repeat split.
Qed.

(* ===================================================================== *)
(** ** The network, on shapes                                             *)
(* ===================================================================== *)

(** [Net] with the values of the tensors left out: each layer maps the
    shape of its input to the shape of its output, or fails where torch
    raises [RuntimeError] ([None]).  The input of [forward] is a batch
    [(N, C, H, W)]. *)
Module Shapes.

(** [nn.Conv2d(in_channels, out_channels, kernel_size, stride)] *)
Record Conv2d : Set := {
  in_channels : Z;
  out_channels : Z;
  kernel_size : Z;
  stride : Z
}.

(** [nn.Linear(in_features, out_features)] *)
Record Linear : Set := {
  in_features : Z;
  out_features : Z
}.

Record Net : Set := {
  conv1 : Conv2d;
  conv2 : Conv2d;
  fc1 : Linear;
  fc2 : Linear
}.

(** [Net.__init__(self, n_time_bins=10)], the sizes of its layers.  With
    [n_time_bins] below 1 the network cannot be used: the first
    convolution fails. *)
Definition init (n_time_bins : Z) : Net :=
  {| conv1 := {| in_channels := n_time_bins; out_channels := 20;
                 kernel_size := 7; stride := 1 |};
     conv2 := {| in_channels := 20; out_channels := 50;
                 kernel_size := 7; stride := 1 |};
     fc1 := {| in_features := 4 * 4 * 50; out_features := 500 |};
     fc2 := {| in_features := 500; out_features := 10 |} |}.

(** The shape of a 4-D tensor, and of a 2-D one (rows, columns). *)
Record Shape4 : Set := {
  batch : Z;
  channels : Z;
  height : Z;
  width : Z
}.

Definition Shape2 : Set := (Z * Z)%type.

Definition and_then {A B} (x : option A) (k : A -> option B) : option B :=
  match x with Some a => k a | None => None end.

(** The size a window of [k] moving by [s] leaves of [n] positions. *)
Definition window (n k s : Z) : Z := (n - k) / s + 1.

(** A convolution without padding: the layer must have input channels,
    the channels of the input must be those of the layer, and the kernel
    must fit in the input.  An empty batch passes. *)
Definition conv2d (l : Conv2d) (x : Shape4) : option Shape4 :=
  if (1 <=? in_channels l) && (channels x =? in_channels l) &&
     (kernel_size l <=? height x) && (kernel_size l <=? width x)
  then Some {| batch := batch x; channels := out_channels l;
               height := window (height x) (kernel_size l) (stride l);
               width := window (width x) (kernel_size l) (stride l) |}
  else None.

(** [F.max_pool2d(x, k, s)]: the output must not be empty. *)
Definition max_pool2d (x : Shape4) (k s : Z) : option Shape4 :=
  if (k <=? height x) && (k <=? width x)
  then Some {| batch := batch x; channels := channels x;
               height := window (height x) k s;
               width := window (width x) k s |}
  else None.

Definition relu {A} (x : A) : A := x.

(** [x.view(-1, columns)]: the elements must fill whole rows; a tensor
    without elements gives no row. *)
Definition view (x : Shape4) (columns : Z) : option Shape2 :=
  let elements := batch x * channels x * height x * width x in
  if elements mod columns =? 0 then Some (elements / columns, columns)
  else None.

(** A linear layer on rows of [in_features] columns. *)
Definition linear (l : Linear) (x : Shape2) : option Shape2 :=
  if snd x =? in_features l then Some (fst x, out_features l) else None.

Definition log_softmax (x : Shape2) : Shape2 := x.

(** [Net.forward(self, x)] *)
Definition forward (net : Net) (x : Shape4) : option Shape2 :=
  and_then (conv2d (conv1 net) x) (fun x =>
  let x := relu x in
  and_then (max_pool2d x 2 2) (fun x =>
  and_then (conv2d (conv2 net) x) (fun x =>
  let x := relu x in
  and_then (max_pool2d x 2 2) (fun x =>
  and_then (view x (4 * 4 * 50)) (fun x =>
  and_then (linear (fc1 net) x) (fun x =>
  let x := relu x in
  and_then (linear (fc2 net) x) (fun x =>
  Some (log_softmax x)))))))).

(** The height (or width) the two convolutions and poolings leave. *)
Definition reduced (n : Z) : Z := ((n - 6) / 2 - 6) / 2.

Lemma window_7_1 (n : Z) : window n 7 1 = n - 6.
Proof. unfold window. rewrite Z.div_1_r. lia. Qed.

Lemma window_2_2 (n : Z) : window n 2 2 = n / 2.
Proof.
  unfold window. replace (n - 2) with (n + (-1) * 2) by lia.
  rewrite Z.div_add by lia. lia.
Qed.

(** The convolutions and poolings of [forward]: they need 22 rows and
    columns, and leave [reduced] of each to what follows. *)
Lemma features_shape {B} (n_time_bins : Z) (x : Shape4)
  (k : Shape4 -> option B) :
  and_then (conv2d (conv1 (init n_time_bins)) x) (fun x =>
  let x := relu x in
  and_then (max_pool2d x 2 2) (fun x =>
  and_then (conv2d (conv2 (init n_time_bins)) x) (fun x =>
  let x := relu x in
  and_then (max_pool2d x 2 2) k))) =
  if (1 <=? n_time_bins) && (channels x =? n_time_bins) &&
     (22 <=? height x) && (22 <=? width x)
  then k {| batch := batch x; channels := 50;
            height := reduced (height x);
            width := reduced (width x) |}
  else None.
Proof.
  destruct x as [n c h w]. unfold conv2d, max_pool2d, relu, and_then, init.
  cbn [channels height width batch conv1 conv2 in_channels out_channels
       kernel_size stride].
  rewrite !window_7_1.
  destruct (1 <=? n_time_bins); cbn [andb]; [|reflexivity].
  destruct (c =? n_time_bins); cbn [andb]; [|reflexivity].
  destruct (Z.leb_spec 22 h), (Z.leb_spec 22 w), (Z.leb_spec 7 h),
    (Z.leb_spec 7 w); cbn [andb]; try lia; try reflexivity;
    cbn [channels height width batch]; rewrite ?window_7_1, ?window_2_2;
    repeat match goal with
    | |- context [?a <=? ?b] =>
        destruct (Z.leb_spec a b);
        cbn [andb Z.eqb Pos.eqb channels height width batch];
        rewrite ?window_7_1, ?window_2_2
    end;
    try reflexivity;
    try (exfalso; Z.to_euclidean_division_equations; lia).
Qed.

Lemma reduced_positive (n : Z) : 22 <= n -> 1 <= reduced n.
Proof. unfold reduced. intros H. Z.to_euclidean_division_equations. lia. Qed.

Lemma reduced_fits (n : Z) : 34 <= n <= 37 -> reduced n = 4.
Proof. unfold reduced. intros H. Z.to_euclidean_division_equations. lia. Qed.

(** [forward] on a batch, empty or not. *)
Lemma forward_shape (n_time_bins : Z) (x : Shape4) :
  let samples := batch x * reduced (height x) * reduced (width x) in
  forward (init n_time_bins) x =
  if (1 <=? n_time_bins) && (channels x =? n_time_bins) &&
     (22 <=? height x) && (22 <=? width x) && (samples mod 16 =? 0)
  then Some (samples / 16, 10)
  else None.
Proof.
  intros samples. unfold forward. rewrite features_shape.
  destruct ((1 <=? n_time_bins) && (channels x =? n_time_bins) &&
            (22 <=? height x) && (22 <=? width x)); cbn [andb];
    [|reflexivity].
  unfold view, and_then. cbn [batch channels height width].
  replace (batch x * 50 * reduced (height x) * reduced (width x))
    with (50 * samples) by (subst samples; ring).
  change (4 * 4 * 50) with (50 * 16).
  rewrite Z.mul_mod_distr_l, Z.div_mul_cancel_l by lia.
  destruct (Z.eqb_spec (samples mod 16) 0) as [Hm|Hm].
  - rewrite Hm. reflexivity.
  - destruct (Z.eqb_spec (50 * (samples mod 16)) 0) as [H0|_]; [lia|].
    reflexivity.
Qed.

(** X16.  The sizes of [Net] fit inputs of 34 to 37 rows and columns
    (34 by 34 is the N-MNIST sensor): for such a batch of [N >= 0] samples
    with [n_time_bins >= 1] channels, [forward] returns [N] rows of 10
    scores; the [4 * 4 * 50] of [view] and [fc1] is what the two
    convolutions and poolings leave of one sample. *)
Theorem forward_fits_34 (n_time_bins : Z) (x : Shape4) :
  1 <= n_time_bins ->
  0 <= batch x ->
  channels x = n_time_bins ->
  34 <= height x <= 37 ->
  34 <= width x <= 37 ->
  forward (init n_time_bins) x = Some (batch x, 10).
Proof.
  intros Hbins Hn Hc Hh Hw. rewrite forward_shape. cbv zeta.
  rewrite !reduced_fits by assumption.
  replace (batch x * 4 * 4) with (batch x * 16) by ring.
  rewrite Z.mod_mul, Z.div_mul by lia.
  rewrite (proj2 (Z.eqb_eq _ _) Hc).
  destruct (Z.leb_spec 1 n_time_bins), (Z.leb_spec 22 (height x)),
    (Z.leb_spec 22 (width x)); try lia. reflexivity.
Qed.

(** X17.  [forward] on any batch of [N >= 0] samples: it raises when
    [n_time_bins] is below 1, when the channels of the input are not
    [n_time_bins], when the input has fewer than 22 rows or columns, or
    when what the convolutions leave does not fill rows of 800; otherwise
    it returns [N * h * w / 16] rows of 10 scores, with [h] and [w] the
    reduced height and width.  So an input of another size than 34 to 37
    can pass and come out as another number of rows than the batch has
    samples, and an empty batch comes out as no row. *)
Theorem forward_rows (n_time_bins : Z) (x : Shape4) :
  0 <= batch x ->
  let samples := batch x * reduced (height x) * reduced (width x) in
  forward (init n_time_bins) x =
  if (1 <=? n_time_bins) && (channels x =? n_time_bins) &&
     (22 <=? height x) && (22 <=? width x) && (samples mod 16 =? 0)
  then Some (samples / 16, 10)
  else None.
Proof. intros _. exact (forward_shape n_time_bins x). Qed.

End Shapes.

(* ===================================================================== *)
(** ** A run on exact numbers                                             *)
(* ===================================================================== *)

(** The collaborators over the rationals, without rounding: a sample is
    its row of class scores, the network returns it as it is, the loss is
    the negative score of the label, the optimiser has nothing to learn. *)
Module Exact.

Definition forward (p : unit) (x : list Q) : list Q := x.

Fixpoint argmax_from (best : Q) (best_i i : Z) (row : list Q) : Z :=
  match row with
  | [] => best_i
  | x :: rest =>
      if Qle_bool x best then argmax_from best best_i (i + 1) rest
      else argmax_from x i (i + 1) rest
  end.

(** The first index of the maximum score. *)
Definition argmax (row : list Q) : Z :=
  match row with
  | [] => 0
  | x :: rest => argmax_from x 0 1 rest
  end.

Definition nll_loss (output : list (list Q)) (target : list Z)
  (r : reduction) : Q :=
  let total :=
    fold_left Qplus
      (map (fun rt => (- nth (Z.to_nat (snd rt)) (fst rt) 0)%Q)
         (combine output target)) 0%Q in
  match r with
  | Sum => total
  | Mean => (total / inject_Z (Z.of_nat (List.length output)))%Q
  end.

Definition sgd_step (p o : unit) (data : list (list Q)) (target : list Z)
  : unit * unit := (p, o).

Definition train :=
  train Q (list Q) unit unit forward nll_loss sgd_step.
Definition test :=
  test Q (fun q => q) Qplus Qdiv (list Q) unit unit forward nll_loss argmax.
Definition main_loop :=
  main_loop Q (fun q => q) Qplus Qdiv (list Q) unit unit forward nll_loss
    argmax sgd_step.

(** A sample of class 0 that the scores get right, and one they miss. *)
Definition hit : list Q * Z := ([-(1 # 2); -3]%Q, 0).
Definition miss : list Q * Z := ([-3; -(1 # 2)]%Q, 0).

(** Ten samples in two batches, seven of them classified correctly. *)
Definition test_loader : DataLoader (list Q) :=
  {| dataset_len := 10;
     batches := [[hit; hit; miss; hit];
                 [hit; miss; hit; hit; miss; hit]] |}.

(** Five batches of one sample. *)
Definition train_loader : DataLoader (list Q) :=
  {| dataset_len := 5;
     batches := [[hit]; [miss]; [hit]; [hit]; [miss]] |}.

(** Two epochs, a record every second batch. *)
Definition args : Namespace :=
  {| drop_probability := None; flip_lr_probability := None;
     flip_ud_probability := None; refractory_period := None;
     time_jitter := None; epochs := 2; log_interval := 2 |}.

(** The store when [main] enters the epoch loop: the writer just opened. *)
Definition fresh : World Q unit unit :=
  {| parameters := tt; training := true; optimizer := tt;
     global_step := 0; log_writer := Some [] |}.

End Exact.

(** The collaborators over binary64, as Python computes: [of_Q] divides
    the numerator by the denominator, each converted to a float, which is
    the correctly rounded quotient of ints below 2^53. *)
Module Binary64.

Definition of_Z (z : Z) : float :=
  SF2Prim (binary_normalize prec emax z 0 false).

Definition of_Q (q : Q) : float :=
  PrimFloat.div (of_Z (Qnum q)) (of_Z (Zpos (Qden q))).

Definition forward (p : unit) (x : list float) : list float := x.

Fixpoint argmax_from (best : float) (best_i i : Z) (row : list float) : Z :=
  match row with
  | [] => best_i
  | x :: rest =>
      if PrimFloat.ltb best x then argmax_from x i (i + 1) rest
      else argmax_from best best_i (i + 1) rest
  end.

Definition argmax (row : list float) : Z :=
  match row with
  | [] => 0
  | x :: rest => argmax_from x 0 1 rest
  end.

Definition nll_loss (output : list (list float)) (target : list Z)
  (r : reduction) : float :=
  let total :=
    fold_left PrimFloat.add
      (map (fun rt =>
              PrimFloat.opp (nth (Z.to_nat (snd rt)) (fst rt) 0%float))
         (combine output target)) 0%float in
  match r with
  | Sum => total
  | Mean => PrimFloat.div total (of_Z (Z.of_nat (List.length output)))
  end.

Definition test :=
  test float of_Q PrimFloat.add PrimFloat.div (list float) unit unit
    forward nll_loss argmax.

Definition hit : list float * Z := ([-0.5; -3]%float, 0).
Definition miss : list float * Z := ([-3; -0.5]%float, 0).

Definition test_loader : DataLoader (list float) :=
  {| dataset_len := 10;
     batches := [[hit; hit; miss; hit];
                 [hit; miss; hit; hit; miss; hit]] |}.

Definition fresh : World float unit unit :=
  {| parameters := tt; training := true; optimizer := tt;
     global_step := 0; log_writer := Some [] |}.

End Binary64.

Lemma train_logs_every_interval_witness :
  fst (Exact.train Exact.args Exact.train_loader 1 Exact.fresh) = inr tt /\
  map step
    (calls
       (snd (Exact.train Exact.args Exact.train_loader 1 Exact.fresh))) = [0; 1; 2].
Proof.
  destruct (train_logs_every_interval Q (fun q => q) (list Q) unit unit
              Exact.forward Exact.nll_loss Exact.sgd_step
              Exact.args Exact.train_loader 1 Exact.fresh [] eq_refl eq_refl)
    as (Hok & Hw & _ & _).
  split; [exact Hok|].
  unfold calls, Exact.train. rewrite Hw. reflexivity.
Defined.

Lemma global_step_counts_train_records_witness :
  global_step
    (snd (Exact.main_loop Exact.args (fun _ => Exact.train_loader)
            (fun _ => Exact.test_loader) Exact.fresh)) = 6.
Proof.
  destruct (global_step_counts_train_records Q (fun q => q) Qplus Qdiv
              (list Q) unit unit Exact.forward Exact.nll_loss Exact.argmax
              Exact.sgd_step Exact.args (fun _ => Exact.train_loader)
              (fun _ => Exact.test_loader) Exact.fresh eq_refl eq_refl)
    as (Hg & _).
  unfold Exact.main_loop. rewrite Hg. reflexivity.
Defined.

Lemma test_reports_mean_loss_and_accuracy_witness :
  exists loss : Q,
    log_writer (snd (Exact.test Exact.args Exact.test_loader Exact.fresh))
    = Some [ {| tag := "test/loss"; value := loss; step := 0 |};
             {| tag := "test/accuracy"; value := 0.7%Q; step := 0 |} ].
Proof.
  destruct (test_reports_mean_loss_and_accuracy Q (fun q => q) Qplus Qdiv
              Qle (fun p q H => H) (list Q) unit unit
              Exact.forward Exact.nll_loss Exact.argmax
              Exact.args Exact.test_loader Exact.fresh []
              eq_refl eq_refl eq_refl)
    as (Hrun & _).
  eexists. unfold Exact.test. rewrite Hrun. reflexivity.
Defined.

(** On binary64: seven samples out of ten classified correctly, with
    summed losses 0.5 and 3, log a mean loss of 1.25 and an accuracy of
    0.7, the float that the literal [0.7] denotes. *)
Example test_binary64_accuracy :
  Binary64.test Exact.args Binary64.test_loader Binary64.fresh =
  (inr tt,
   {| parameters := tt; training := false; optimizer := tt;
      global_step := 0;
      log_writer :=
        Some [ {| tag := "test/loss"; value := 1.25%float; step := 0 |};
               {| tag := "test/accuracy"; value := 0.7%float;
                  step := 0 |} ] |}).
Proof. vm_compute. reflexivity. Qed.

(* ===================================================================== *)
(** ** Runs of the further theorems                                       *)
(* ===================================================================== *)

Module Sample.

(** Training with a drop probability of 0.3 and a flip-LR probability of
    0.5, and what [create_data_aug] then returns and prints. *)
Definition args : Namespace :=
  options (Some 0.3%float) (Some 0.5%float) None None None.

Definition steps : list Transform :=
  [DropEvent 0.3; FlipLR 0.5; Volume true; NumpyAsType float32].

Definition out : Stdout :=
  ["- DropEvent : 0.300000"; "- FlipLR : 0.500000"; "- Volume";
   "- NumpyAsType"].

(** The ten test samples of [Exact.test_loader] in a single batch. *)
Definition one_batch : DataLoader (list Q) :=
  {| dataset_len := 10;
     batches := [List.concat (batches Exact.test_loader)] |}.


(** A batch of two inputs of 50 by 50, and one of 64 inputs of 34 by 34. *)
Definition wide : Shapes.Shape4 :=
  {| Shapes.batch := 2; Shapes.channels := 10;
     Shapes.height := 50; Shapes.width := 50 |}.

Definition nmnist : Shapes.Shape4 :=
  {| Shapes.batch := 64; Shapes.channels := 10;
     Shapes.height := 34; Shapes.width := 34 |}.

End Sample.

Lemma create_data_aug_included_witness :
  In (DropEvent 0.3) Sample.steps <->
  true = true /\ drop_probability Sample.args = Some 0.3%float /\
  PrimFloat.ltb 1e-4 0.3 = true.
Proof.
  exact (proj1 (create_data_aug_included Sample.args true []
                  Sample.out Sample.steps eq_refl 0.3%float)).
Defined.

Lemma create_data_aug_order_witness :
  increasing (map rank Sample.steps) = true /\
  Sample.steps =
    (firstn (List.length Sample.steps - 2) Sample.steps ++
     [Volume true; NumpyAsType float32])%list.
Proof.
  exact (create_data_aug_order Sample.args true [] Sample.out
           Sample.steps eq_refl).
Defined.

Lemma create_data_aug_prints_witness :
  Sample.out = ([] ++ map line Sample.steps)%list.
Proof.
  exact (create_data_aug_prints Sample.args true [] Sample.out
           Sample.steps eq_refl).
Defined.

Lemma included_steps_are_named_witness :
  exists pre post : string,
    create_data_aug_name Sample.args =
    pre ++ "_flr_" ++ format_f 2 0.5 ++ post.
Proof.
  apply (included_steps_are_named Sample.args true [] Sample.out
           Sample.steps 0.5%float eq_refl).
  cbn. auto.
Defined.

Lemma create_data_aug_name_determines_options_witness :
  map fst (present_options
             (options (Some 0.301%float) None None (Some 2%float) None)) =
  map fst (present_options
             (options (Some 0.3%float) None None (Some 2%float) None)).
Proof.
  apply (create_data_aug_name_determines_options
           (options (Some 0.301%float) None None (Some 2%float) None)
           (options (Some 0.3%float) None None (Some 2%float) None)).
  reflexivity.
Defined.

Lemma train_failure_store_witness :
  log_writer
    (snd (Exact.train (with_log_interval 0 Exact.args) Exact.train_loader 1
            Exact.fresh)) = Some [] /\
  global_step
    (snd (Exact.train (with_log_interval 0 Exact.args) Exact.train_loader 1
            Exact.fresh)) = 0.
Proof.
  destruct (train_failure_store Q (list Q) unit unit Exact.forward
              Exact.nll_loss Exact.sgd_step
              (with_log_interval 0 Exact.args) Exact.train_loader 1
              Exact.fresh [Exact.hit]
              [[Exact.miss]; [Exact.hit]; [Exact.hit]; [Exact.miss]]
              eq_refl (or_introl eq_refl)) as (_ & _ & _ & Hg & Hw).
  split; [exact Hw | exact Hg].
Defined.

Lemma train_ignores_interval_sign_witness :
  Exact.train (with_log_interval (-2) Exact.args) Exact.train_loader 1
    Exact.fresh =
  Exact.train Exact.args Exact.train_loader 1 Exact.fresh.
Proof.
  apply (train_ignores_interval_sign Q (list Q) unit unit Exact.forward
           Exact.nll_loss Exact.sgd_step).
  reflexivity.
Defined.

Lemma train_final_store_witness :
  global_step
    (snd (Exact.train Exact.args Exact.train_loader 1 Exact.fresh)) = 3.
Proof.
  destruct (train_final_store Q (fun q => q) (list Q) unit unit
              Exact.forward Exact.nll_loss Exact.sgd_step Exact.args
              Exact.train_loader 1 Exact.fresh [] eq_refl eq_refl)
    as (_ & _ & _ & Hg).
  exact Hg.
Defined.

Lemma test_accuracy_ignores_batching_witness :
  filter (is_accuracy Q)
    (calls (snd (Exact.test Exact.args Exact.test_loader Exact.fresh))) =
  filter (is_accuracy Q)
    (calls (snd (Exact.test Exact.args Sample.one_batch Exact.fresh))).
Proof.
  apply (test_accuracy_ignores_batching Q (fun q => q) Qplus Qdiv (list Q)
           unit unit Exact.forward Exact.nll_loss Exact.argmax);
    reflexivity.
Defined.

Lemma main_loop_steps_witness :
  fst (Exact.main_loop Exact.args (fun _ => Exact.train_loader)
         (fun _ => Exact.test_loader) Exact.fresh) = inr tt /\
  global_step
    (snd (Exact.main_loop Exact.args (fun _ => Exact.train_loader)
            (fun _ => Exact.test_loader) Exact.fresh)) = 6.
Proof.
  assert (Hlen : forall e : Z, dataset_len Exact.test_loader <> 0)
    by (intros _; discriminate).
  destruct (main_loop_steps Q (fun q => q) Qplus Qdiv (list Q) unit unit
              Exact.forward Exact.nll_loss Exact.argmax Exact.sgd_step
              Exact.args (fun _ => Exact.train_loader)
              (fun _ => Exact.test_loader) 5%nat Exact.fresh []
              eq_refl eq_refl (fun _ => eq_refl) Hlen)
    as (Hok & Hg & _).
  split; [exact Hok | exact Hg].
Defined.

Lemma forward_fits_34_witness :
  Shapes.forward (Shapes.init 10) Sample.nmnist = Some (64, 10).
Proof.
  apply (Shapes.forward_fits_34 10 Sample.nmnist); cbn; lia.
Defined.

Lemma forward_rows_witness :
  Shapes.forward (Shapes.init 10) Sample.wide = Some (8, 10).
Proof.
  exact (Shapes.forward_rows 10 Sample.wide ltac:(cbn; lia)).
Defined.

Lemma main_loop_trains_as_one_pass_witness :
  fst (Exact.main_loop Exact.args (fun _ => Exact.train_loader)
         (fun _ => Exact.test_loader) Exact.fresh) = inr tt.
Proof.
  assert (Hlen : forall e : Z, dataset_len Exact.test_loader <> 0)
    by (intros _; discriminate).
  apply (main_loop_trains_as_one_pass Q (fun q => q) Qplus Qdiv (list Q)
           unit unit Exact.forward Exact.nll_loss Exact.argmax
           Exact.sgd_step Exact.args (fun _ => Exact.train_loader)
           (fun _ => Exact.test_loader) Exact.fresh []
           eq_refl eq_refl Hlen).
Defined.

